(** * ASFMLogger Python wrapper: the local log queue and its derived views

    A shallow embedding of [wrappers/python/asfm_logger.py]
    (class [ASFMLoggerPython]) and the properties of its bounded queue,
    its query, statistics, export and monitoring operations.

    Conventions of the embedding.
    - A Python [str] is a Rocq [string]; [str.upper] and [str.lower] act
      on the ASCII letters (the only letters the level names contain).
    - A Python [int] is a [Z]; a count kept in a [dict] is a [nat].
    - A [dict] with a fixed set of keys is a record; a [dict] used as a
      map is a [gmap].
    - Every call that reaches outside the interpreter (the clock, the
      native library, the console, the file system, the callback of the
      monitor) takes its outcome from an environment record, so that each
      method is a function of its arguments, its state and that record.
    - Seconds are exact rationals; Python holds each of them as the
      nearest binary64 value.
    - A method that copies the queue under the lock works on the queue
      as it is then.  [get_log_statistics] keeps the list itself and
      reads it after the lock is released: it takes the list as each of
      its reads finds it, other threads being free to change it between
      two reads. *)

From Stdlib Require Import ZArith QArith String Ascii List Lia.
From stdpp Require Import base list gmap strings pretty.

Local Open Scope string_scope.
Local Open Scope Z_scope.

(** ** Python primitives *)

Module Py.

(** An exception object: its class and its message. *)
Inductive PyExc : Type :=
| Exc (kind : string) (msg : string).

Definition exc_str (e : PyExc) : string :=
  match e with Exc _ m => m end.

(** The outcome of a call: a normal return or a propagated exception. *)
Inductive Outcome (A : Type) : Type :=
| Returned (v : A)
| Raised (e : PyExc).
Arguments Returned {A} v.
Arguments Raised {A} e.

Definition upper_char (c : ascii) : ascii :=
  let n := nat_of_ascii c in
  if ((97 <=? n) && (n <=? 122))%nat then ascii_of_nat (n - 32) else c.

Definition lower_char (c : ascii) : ascii :=
  let n := nat_of_ascii c in
  if ((65 <=? n) && (n <=? 90))%nat then ascii_of_nat (n + 32) else c.

(** [s.upper()] *)
Fixpoint upper (s : string) : string :=
  match s with
  | EmptyString => EmptyString
  | String c r => String (upper_char c) (upper r)
  end.

(** [s.lower()] *)
Fixpoint lower (s : string) : string :=
  match s with
  | EmptyString => EmptyString
  | String c r => String (lower_char c) (lower r)
  end.

(** Truth value of a [str]: the empty string is false. *)
Definition truthy_str (s : string) : bool :=
  match s with EmptyString => false | _ => true end.

(** Truth value of a [list]: the empty list is false. *)
Definition truthy_list {A} (l : list A) : bool :=
  match l with [] => false | _ => true end.

(** [l[start:]] for any integer [start]: a negative index counts from
    the end, and both ends are clamped to the list. *)
Definition slice_from {A} (start : Z) (l : list A) : list A :=
  let n := Z.of_nat (length l) in
  let s := if start <? 0 then Z.max (start + n) 0 else Z.min start n in
  drop (Z.to_nat s) l.

(** [l[:stop]] for any integer [stop]. *)
Definition slice_to {A} (stop : Z) (l : list A) : list A :=
  let n := Z.of_nat (length l) in
  let s := if stop <? 0 then Z.max (stop + n) 0 else Z.min stop n in
  take (Z.to_nat s) l.

(** [s[:stop]] on a [str]. *)
Definition str_slice_to (stop : Z) (s : string) : string :=
  string_of_list_ascii (slice_to stop (list_ascii_of_string s)).

(** [max(a, b)]: the first argument unless the second is larger. *)
Definition max (a b : Q) : Q :=
  if Qlt_le_dec a b then b else a.

End Py.

Import Py.

(** ** Naive datetimes (library [datetime]) *)

Module DateTime.

Record datetime : Type := mk_datetime {
  year : Z; month : Z; day : Z;
  hour : Z; minute : Z; second : Z; microsecond : Z
}.

Definition is_leap (y : Z) : bool :=
  (y mod 4 =? 0) && (negb (y mod 100 =? 0) || (y mod 400 =? 0)).

Definition days_in_month (y m : Z) : Z :=
  if m =? 2 then (if is_leap y then 29 else 28)
  else if (m =? 4) || (m =? 6) || (m =? 9) || (m =? 11) then 30
  else 31.

Definition days_before_year (y : Z) : Z :=
  let p := y - 1 in p * 365 + p / 4 - p / 100 + p / 400.

Definition days_before_month (y m : Z) : Z :=
  fold_right Z.add 0
    (map (days_in_month y) (filter (fun k => k <? m) [1;2;3;4;5;6;7;8;9;10;11;12])).

(** [date.toordinal()]: day 1 is 0001-01-01. *)
Definition toordinal (d : datetime) : Z :=
  days_before_year (year d) + days_before_month (year d) (month d) + day d.

(** The range checks of the [datetime] constructor. *)
Definition valid (d : datetime) : bool :=
  (1 <=? year d) && (year d <=? 9999) &&
  (1 <=? month d) && (month d <=? 12) &&
  (1 <=? day d) && (day d <=? days_in_month (year d) (month d)) &&
  (0 <=? hour d) && (hour d <? 24) &&
  (0 <=? minute d) && (minute d <? 60) &&
  (0 <=? second d) && (second d <? 60) &&
  (0 <=? microsecond d) && (microsecond d <? 1000000).

(** Microseconds since 0001-01-01 00:00:00; two naive datetimes compare
    and subtract as these numbers do. *)
Definition to_micro (d : datetime) : Z :=
  (((toordinal d - 1) * 86400 + hour d * 3600 + minute d * 60 + second d)
     * 1000000) + microsecond d.

(** [(a - b).total_seconds()] *)
Definition total_seconds_between (a b : datetime) : Q :=
  (to_micro a - to_micro b) # 1000000.

(** The character of a decimal digit and the value of a character. *)
Definition digit (d : Z) : ascii := ascii_of_N (Z.to_N (48 + d)).
Definition digit_val (c : ascii) : Z := Z.of_N (N_of_ascii c) - 48.
Definition is_digit (c : ascii) : bool :=
  (0 <=? digit_val c) && (digit_val c <=? 9).

(** [n] in decimal, zero-padded to [w] characters. *)
Fixpoint zpad (w : nat) (n : Z) : list ascii :=
  match w with
  | O => []
  | S w' => digit ((n / 10 ^ Z.of_nat w') mod 10) :: zpad w' n
  end.

(** [d.strftime("%Y-%m-%d %H:%M:%S.%f")]; the year is written with four
    digits, as the C library writes the years from 1000 on (the only ones
    a clock reads). *)
Definition strftime (d : datetime) : string :=
  string_of_list_ascii
    (zpad 4 (year d) ++ "-"%char :: zpad 2 (month d) ++ "-"%char ::
     zpad 2 (day d) ++ " "%char :: zpad 2 (hour d) ++ ":"%char ::
     zpad 2 (minute d) ++ ":"%char :: zpad 2 (second d) ++ "."%char ::
     zpad 6 (microsecond d)).

(** Exactly [w] decimal digits at the head of [l]. *)
Fixpoint digits_acc (w : nat) (acc : Z) (l : list ascii) : option (Z * list ascii) :=
  match w with
  | O => Some (acc, l)
  | S w' =>
      match l with
      | c :: r => if is_digit c then digits_acc w' (acc * 10 + digit_val c) r else None
      | [] => None
      end
  end.

Definition digits (w : nat) (l : list ascii) : option (Z * list ascii) :=
  digits_acc w 0 l.

Definition expect (c : ascii) (l : list ascii) : option (list ascii) :=
  match l with
  | c' :: r => if Ascii.eqb c c' then Some r else None
  | [] => None
  end.

(** [datetime.strptime(s, "%Y-%m-%d %H:%M:%S.%f")] on a string in the
    fixed-width layout that [strftime] writes, with one to six digits of
    fraction; [None] stands for the [ValueError] of a string that does
    not parse or of fields out of range.  (The library also reads some
    strings with one-digit fields; the logger never stores one.) *)
Definition strptime (s : string) : option datetime :=
  '(y, l) ← digits 4 (list_ascii_of_string s);
  l ← expect "-" l;
  '(mo, l) ← digits 2 l;
  l ← expect "-" l;
  '(d, l) ← digits 2 l;
  l ← expect " " l;
  '(h, l) ← digits 2 l;
  l ← expect ":" l;
  '(mi, l) ← digits 2 l;
  l ← expect ":" l;
  '(sec, l) ← digits 2 l;
  l ← expect "." l;
  let k := length l in
  if ((1 <=? k) && (k <=? 6))%nat then
    '(f, r) ← digits k l;
    let dt := mk_datetime y mo d h mi sec (f * 10 ^ Z.of_nat (6 - k)) in
    if valid dt then Some dt else None
  else None.

(** [d] with its microseconds cut down to whole milliseconds. *)
Definition truncate_ms (d : datetime) : datetime :=
  mk_datetime (year d) (month d) (day d) (hour d) (minute d) (second d)
              (microsecond d / 1000 * 1000).

End DateTime.

Import DateTime.

(** ** The entries of the local queue *)

Module Log.

(** The [dict] that [_log_with_component] appends: its six keys. *)
Record LogEntry : Type := mk_entry {
  timestamp : string;
  level : string;
  component : string;
  function : string;
  message : string;
  formatted_message : string
}.

End Log.

Abbreviation LogEntry := Log.LogEntry.

(** ** The logger object and the world around it *)

Module Logger.

(** The arguments of [configure_enhanced]. *)
Record EnhancedConfig : Type := mk_enhanced_config {
  enable_database : bool;
  database_connection : string;
  enable_shared_memory : bool;
  shared_memory_name : string;
  console_output : bool;
  log_file : string;
  max_file_size : Z;
  max_files : Z;
  min_log_level : string
}.

(** A call that reached the native library: [log] with level, component,
    function and formatted message, or [configureEnhanced] with the
    application name, the options and the number of the minimum level. *)
Inductive NativeCall : Type :=
| mk_native_call (nc_level nc_component nc_function nc_message : string)
| mk_native_configure (nc_application : string) (nc_config : EnhancedConfig)
                      (nc_log_level_value : Z).

(** The fields of an [ASFMLoggerPython] instance.  [_logger] is the
    handle that [getInstance] returned, if any; a null handle is false. *)
Record ASFMLoggerPython : Type := mk_logger {
  application_name : string;
  process_name : string;
  _logger : option Z;
  _library_loaded : bool;
  _local_queue : list LogEntry
}.

Definition set_queue (self : ASFMLoggerPython) (q : list LogEntry) : ASFMLoggerPython :=
  mk_logger (application_name self) (process_name self)
            (_logger self) (_library_loaded self) q.

Definition truthy_handle (h : option Z) : bool :=
  match h with Some v => negb (v =? 0) | None => false end.

(** What [__init__] finds outside: the process id, whether one of the
    library paths exists and loads, and what [getInstance] returns. *)
Record InitEnv : Type := mk_init_env {
  pid : Z;
  library_found : bool;
  instance_handle : option Z
}.

(** [ASFMLoggerPython.__init__]: the fields after construction.  (The
    lines that the constructor prints are left out: the console of the
    model starts empty.) *)
Definition __init__ (application_name process_name : string) (env : InitEnv) : ASFMLoggerPython :=
  mk_logger application_name
            (if truthy_str process_name then process_name
             else "Python_" ++ pretty (pid env))
            (if library_found env then instance_handle env else None)
            (library_found env)
            [].

(** The console: the lines written by [print] so far. *)
Definition Console : Type := list string.

(** [print(line)]; [fault] is the exception the write raises, if any. *)
Definition print (fault : option PyExc) (line : string) (out : Console)
  : Console * Outcome unit :=
  match fault with
  | None => ((out ++ [line])%list, Returned tt)
  | Some e => (out, Raised e)
  end.

(** What one call of [_log_with_component] meets outside: the reading of
    [datetime.now()] (a datetime that the constructor accepts, as every
    [datetime] object is), the exception of the native block (encoding
    the arguments and calling [log]), the exception of the [print] in
    [_output_to_python_logging], and the exception of the [print] in the
    handler. *)
Record RecordEnv : Type := mk_record_env {
  now : datetime;
  now_valid : valid now = true;
  native_fault : option PyExc;
  print_fault : option PyExc;
  handler_print_fault : option PyExc
}.

(** [_output_to_python_logging] *)
Definition _output_to_python_logging (fault : option PyExc)
    (level message : string) (out : Console) : Console * Outcome unit :=
  if String.eqb (upper level) "TRACE" then print fault ("TRACE: " ++ message) out
  else if String.eqb (upper level) "DEBUG" then print fault ("DEBUG: " ++ message) out
  else if String.eqb (upper level) "INFO" then print fault ("INFO: " ++ message) out
  else if String.eqb (upper level) "WARN" then print fault ("WARNING: " ++ message) out
  else if String.eqb (upper level) "ERROR" then print fault ("ERROR: " ++ message) out
  else if String.eqb (upper level) "CRITICAL" then print fault ("CRITICAL: " ++ message) out
  else (out, Returned tt).

(** The capacity of the local queue. *)
Definition CAPACITY : nat := 1000.

(** [datetime.now().strftime("%Y-%m-%d %H:%M:%S.%f")[:-3]] *)
Definition make_timestamp (d : datetime) : string :=
  str_slice_to (-3) (strftime d).

(** The entry built for one call. *)
Definition make_entry (env : RecordEnv) (level message component function : string) : LogEntry :=
  let timestamp := make_timestamp (now env) in
  Log.mk_entry timestamp (upper level) component function message
    ("[" ++ timestamp ++ "] [" ++ component ++ "] " ++ message).

(** The locked block: append, then drop the head when the queue is
    longer than the capacity. *)
Definition enqueue (entry : LogEntry) (queue : list LogEntry) : list LogEntry :=
  let queue := (queue ++ [entry])%list in
  if (CAPACITY <? length queue)%nat then tail queue else queue.

(** A file on disk: plain text, the complete output of [json.dump] or of
    the [csv.DictWriter] for some entries, or a file that was opened for
    writing (so truncated) and whose writing did not complete. *)
Inductive FileContent : Type :=
| Text (text : string)
| JsonDump (logs : list LogEntry)
| CsvDump (fieldnames : list string) (rows : list LogEntry)
| Torn.

Inductive PollerStatus : Type := Running | Finished.

(** A thread running [monitoring_loop]: the closure variables
    [callback] (a callable, named by a number, or [None]) and
    [interval_seconds], the local [last_check_time] (a reading of
    [time.time()], in microseconds since the epoch), whether the loop is
    still running, and the history of the arguments it passed to
    [callback]. *)
Record Poller : Type := mk_poller {
  callback : option nat;
  interval_seconds : Q;
  last_check_time : Z;
  status : PollerStatus;
  delivered : list (list LogEntry)
}.

(** The state a call works on: the instance, the console, the calls
    delivered to the native library, the files and the monitor threads
    of the process. *)
Record World : Type := mk_world {
  self : ASFMLoggerPython;
  console : Console;
  native_calls : list NativeCall;
  files : gmap string FileContent;
  pollers : list Poller
}.

Definition set_self (w : World) (s : ASFMLoggerPython) : World :=
  mk_world s (console w) (native_calls w) (files w) (pollers w).
Definition set_console (w : World) (out : Console) : World :=
  mk_world (self w) out (native_calls w) (files w) (pollers w).
Definition set_native_calls (w : World) (n : list NativeCall) : World :=
  mk_world (self w) (console w) n (files w) (pollers w).
Definition set_files (w : World) (fs : gmap string FileContent) : World :=
  mk_world (self w) (console w) (native_calls w) fs (pollers w).
Definition set_pollers (w : World) (ps : list Poller) : World :=
  mk_world (self w) (console w) (native_calls w) (files w) ps.

(** A process with a freshly constructed logger and nothing else. *)
Definition fresh_world (application_name process_name : string) (env : InitEnv) : World :=
  mk_world (__init__ application_name process_name env) [] [] ∅ [].

(** [_log_with_component] *)
Definition _log_with_component (env : RecordEnv)
    (level message component function : string) (w : World) : World * Outcome unit :=
  let entry := make_entry env level message component function in
  let formatted_message := Log.formatted_message entry in
  (* the native call, inside its own try with a bare except *)
  let native :=
    if truthy_handle (_logger (self w)) && _library_loaded (self w) then
      match native_fault env with
      | None => (native_calls w ++
                 [mk_native_call level component function formatted_message])%list
      | Some _ => native_calls w
      end
    else native_calls w in
  let w := set_native_calls w native in
  (* with self._queue_lock: append and evict *)
  let w := set_self w (set_queue (self w) (enqueue entry (_local_queue (self w)))) in
  match _output_to_python_logging (print_fault env) level formatted_message (console w) with
  | (out, Returned _) => (set_console w out, Returned tt)
  | (out, Raised e) =>
      (* except Exception as e: print(...) *)
      match print (handler_print_fault env) ("Error in Python logging: " ++ exc_str e) out with
      | (out', Returned _) => (set_console w out', Returned tt)
      | (out', Raised e') => (set_console w out', Raised e')
      end
  end.

Definition trace (env : RecordEnv) (message component function : string) :=
  _log_with_component env "trace" message component function.
Definition debug (env : RecordEnv) (message component function : string) :=
  _log_with_component env "debug" message component function.
Definition info (env : RecordEnv) (message component function : string) :=
  _log_with_component env "info" message component function.
Definition warn (env : RecordEnv) (message component function : string) :=
  _log_with_component env "warn" message component function.
Definition error (env : RecordEnv) (message component function : string) :=
  _log_with_component env "error" message component function.
Definition critical (env : RecordEnv) (message component function : string) :=
  _log_with_component env "critical" message component function.

(** [clear_local_logs] *)
Definition clear_local_logs (self : ASFMLoggerPython) : ASFMLoggerPython :=
  set_queue self [].

(** [get_local_logs] *)
Definition get_local_logs (self : ASFMLoggerPython)
    (component level : string) (limit : Z) : list LogEntry :=
  let filtered_logs := _local_queue self in
  let filtered_logs :=
    if truthy_str component
    then filter (fun log => Log.component log = component) filtered_logs
    else filtered_logs in
  let filtered_logs :=
    if truthy_str level
    then filter (fun log => Log.level log = upper level) filtered_logs
    else filtered_logs in
  if truthy_list filtered_logs then slice_from (- limit) filtered_logs else [].


(** The [dict] that [get_log_statistics] returns; a key that is absent
    from it is [None]. *)
Record Statistics : Type := mk_statistics {
  total_messages : nat;
  level_distribution : option (gmap string nat);
  component_distribution : option (gmap string nat);
  time_range_seconds : option Q;
  messages_per_second : option Q
}.

(** The list behind [logs] in [get_log_statistics].  The method takes the
    queue itself under the lock, not a copy of it, and reads it after it
    has released the lock; so each of its reads finds the list as the
    other threads (ingestion calls, [clear_local_logs]) have left it by
    then.  [seen] holds the list as the next reads find it, one element
    for each read, and [settled] the list as every read after those finds
    it. *)
Record Live : Type := mk_live {
  seen : list (list LogEntry);
  settled : list LogEntry
}.

(** One read of the list. *)
Definition look (logs : Live) : list LogEntry * Live :=
  match seen logs with
  | found :: rest => (found, mk_live rest (settled logs))
  | [] => (settled logs, logs)
  end.

(** A list that no other thread changes while the call runs. *)
Definition still (queue : list LogEntry) : Live := mk_live [] queue.

(** The counting loop on a list that stays as it is:
    [counts[k] = counts.get(k, 0) + 1] for each entry. *)
Definition count_by (key : LogEntry -> string) (logs : list LogEntry) : gmap string nat :=
  fold_left (fun counts log => <[key log := (default 0 (counts !! key log) + 1)%nat]> counts)
            logs ∅.

(** The counting loop on the live list.  The iterator of a list keeps an
    index; each step reads the list, takes the entry at the index when
    there is one, and ends the loop when there is none. *)
Fixpoint counting_loop (key : LogEntry -> string) (index : nat)
    (seen : list (list LogEntry)) (settled : list LogEntry)
    (counts : gmap string nat) : gmap string nat * Live :=
  match seen with
  | found :: rest =>
      match found !! index with
      | Some log =>
          counting_loop key (S index) rest settled
            (<[key log := (default 0 (counts !! key log) + 1)%nat]> counts)
      | None => (counts, mk_live rest settled)
      end
  | [] =>
      (fold_left
         (fun counts log => <[key log := (default 0 (counts !! key log) + 1)%nat]> counts)
         (drop index settled) counts,
       mk_live [] settled)
  end.

(** [sum(d.values())] *)
Definition sum_values (d : gmap string nat) : nat :=
  map_fold (fun _ v acc => (v + acc)%nat) 0%nat d.

Definition strptime_error (s : string) : PyExc :=
  Exc "ValueError" ("time data " ++ s ++ " does not match format").

Definition index_error : PyExc := Exc "IndexError" "list index out of range".

(** The time range of [get_log_statistics]: [len(logs)], and from two
    entries on [logs[0]] and [logs[-1]], each a read of the list, with
    both stamps parsed. *)
Definition time_range_of (logs : Live) : Live * Outcome Q :=
  let '(at_test, logs) := look logs in
  if (2 <=? length at_test)%nat then
    let '(at_first, logs) := look logs in
    match head at_first with
    | None => (logs, Raised index_error)
    | Some first =>
        match strptime (Log.timestamp first) with
        | None => (logs, Raised (strptime_error (Log.timestamp first)))
        | Some oldest =>
            let '(at_last, logs) := look logs in
            match last at_last with
            | None => (logs, Raised index_error)
            | Some final =>
                match strptime (Log.timestamp final) with
                | None => (logs, Raised (strptime_error (Log.timestamp final)))
                | Some newest => (logs, Returned (total_seconds_between newest oldest))
                end
            end
        end
    end
  else (logs, Returned 0%Q).

(** [get_log_statistics]: the truth test, the two loops, the time range
    and the two [len(logs)] of the returned [dict] read the list one
    after the other. *)
Definition get_log_statistics (logs : Live) : Outcome Statistics :=
  let '(at_test, logs) := look logs in
  if negb (truthy_list at_test) then
    Returned (mk_statistics 0 None None None None)
  else
    let '(level_counts, logs) :=
      counting_loop Log.level 0 (seen logs) (settled logs) ∅ in
    let '(component_counts, logs) :=
      counting_loop Log.component 0 (seen logs) (settled logs) ∅ in
    match time_range_of logs with
    | (_, Raised e) => Raised e
    | (logs, Returned time_range) =>
        let '(at_total, logs) := look logs in
        let '(at_rate, _) := look logs in
        Returned (mk_statistics (length at_total) (Some level_counts) (Some component_counts)
                    (Some time_range)
                    (Some (inject_Z (Z.of_nat (length at_rate)) / Py.max time_range 1)%Q))
    end.

(** What one call of [export_logs_to_file] meets outside: the exception
    of [open], the exception of the writing after a successful [open],
    and the exceptions of the two [print]s. *)
Record ExportEnv : Type := mk_export_env {
  open_fault : option PyExc;
  write_fault : option PyExc;
  export_print_fault : option PyExc;
  export_handler_print_fault : option PyExc
}.

(** [with open(file_path, 'w') as f: <write data>] *)
Definition write_file (env : ExportEnv) (file_path : string) (data : FileContent)
    (fs : gmap string FileContent) : gmap string FileContent * Outcome unit :=
  match open_fault env with
  | Some e => (fs, Raised e)
  | None =>
      match write_fault env with
      | Some e => (<[file_path := Torn]> fs, Raised e)
      | None => (<[file_path := data]> fs, Returned tt)
      end
  end.

Definition newline : string := String (ascii_of_nat 10) EmptyString.

(** One line of the plain-text export. *)
Definition txt_line (log : LogEntry) : string :=
  Log.timestamp log ++ " [" ++ Log.level log ++ "] [" ++ Log.component log ++ "] "
    ++ Log.message log ++ newline.

Definition txt_export (logs : list LogEntry) : string :=
  fold_right String.append "" (map txt_line logs).

(** [logs[0].keys()] *)
Definition entry_keys : list string :=
  ["timestamp"; "level"; "component"; "function"; "message"; "formatted_message"].

(** [export_logs_to_file] *)
Definition export_logs_to_file (env : ExportEnv) (file_path format : string)
    (w : World) : World * Outcome unit :=
  let logs := _local_queue (self w) in
  let '(fs, body) :=
    if String.eqb (lower format) "json" then
      write_file env file_path (JsonDump logs) (files w)
    else if String.eqb (lower format) "csv" then
      if truthy_list logs
      then write_file env file_path (CsvDump entry_keys logs) (files w)
      else (files w, Returned tt)
    else if String.eqb (lower format) "txt" then
      write_file env file_path (Text (txt_export logs)) (files w)
    else (files w, Returned tt) in
  let w := set_files w fs in
  let handler (e : PyExc) (out : Console) :=
    match print (export_handler_print_fault env) ("Error exporting logs: " ++ exc_str e) out with
    | (out', Returned _) => (set_console w out', Returned tt)
    | (out', Raised e') => (set_console w out', Raised e')
    end in
  match body with
  | Raised e => handler e (console w)
  | Returned _ =>
      match print (export_print_fault env)
              ("Exported " ++ pretty (length logs) ++ " log messages to " ++ file_path)
              (console w) with
      | (out, Returned _) => (set_console w out, Returned tt)
      | (out, Raised e) => handler e out
      end
  end.

(** What [configure_enhanced] meets outside: the exception of the native
    [configureEnhanced] call and of the two [print]s. *)
Record ConfigEnv : Type := mk_config_env {
  configure_fault : option PyExc;
  configure_print_fault : option PyExc;
  configure_handler_print_fault : option PyExc
}.

(** [level_map.get(min_log_level.upper(), 2)] *)
Definition level_value (min_log_level : string) : Z :=
  let u := upper min_log_level in
  if String.eqb u "TRACE" then 0
  else if String.eqb u "DEBUG" then 1
  else if String.eqb u "INFO" then 2
  else if String.eqb u "WARN" then 3
  else if String.eqb u "ERROR" then 4
  else if String.eqb u "CRITICAL" then 5
  else 2.

(** [configure_enhanced]: the options go to the native library when it is
    there; the method prints one line, or the warning of its handler. *)
Definition configure_enhanced (env : ConfigEnv) (config : EnhancedConfig)
    (w : World) : World * Outcome unit :=
  let handler (w : World) (e : PyExc) (out : Console) :=
    match print (configure_handler_print_fault env)
            ("Warning: Failed to configure enhanced features: " ++ exc_str e) out with
    | (out', Returned _) => (set_console w out', Returned tt)
    | (out', Raised e') => (set_console w out', Raised e')
    end in
  let native : World * Outcome unit :=
    if truthy_handle (_logger (self w)) && _library_loaded (self w) then
      match configure_fault env with
      | Some e => (w, Raised e)
      | None =>
          (set_native_calls w
             (native_calls w ++
                [mk_native_configure (application_name (self w)) config
                   (level_value (min_log_level config))])%list,
           Returned tt)
      end
    else (w, Returned tt) in
  match native with
  | (w, Raised e) => handler w e (console w)
  | (w, Returned _) =>
      match print (configure_print_fault env)
              ("Enhanced ASFMLogger configured for " ++ application_name (self w))
              (console w) with
      | (out, Returned _) => (set_console w out, Returned tt)
      | (out, Raised e) => handler w e out
      end
  end.

(** The function that [create_log_filter] returns. *)
Definition create_log_filter (component level min_importance : string)
    (messages : list LogEntry) : list LogEntry :=
  let filtered := messages in
  let filtered :=
    if truthy_str component
    then filter (fun msg => Log.component msg = component) filtered
    else filtered in
  if truthy_str level
  then filter (fun msg => Log.level msg = upper level) filtered
  else filtered.

(** *** The monitor thread *)

(** What one iteration of [monitoring_loop] meets outside: the reading of
    [time.time()] (microseconds since the epoch), the local time that
    [datetime.fromtimestamp] gives for such a reading (the microseconds
    of that datetime on the scale of [to_micro]), the exception the
    callback raises if it is called, and the exception of the [print] in
    the handler.  [fromtimestamp] is what the time zone of the process
    makes it: it need not be increasing, since the local time steps back
    at the end of daylight saving time and whenever the zone changes. *)
Record TickEnv : Type := mk_tick_env {
  time_time : Z;
  fromtimestamp : Z -> Z;
  callback_fault : option PyExc;
  loop_print_fault : option PyExc
}.

Definition set_status (p : Poller) (st : PollerStatus) : Poller :=
  mk_poller (callback p) (interval_seconds p) (last_check_time p) st (delivered p).
Definition set_last_check_time (p : Poller) (t : Z) : Poller :=
  mk_poller (callback p) (interval_seconds p) t (status p) (delivered p).
Definition add_delivery (p : Poller) (msgs : list LogEntry) : Poller :=
  mk_poller (callback p) (interval_seconds p) (last_check_time p) (status p)
            (delivered p ++ [msgs])%list.

(** The list comprehension of the loop: the entries whose parsed stamp is
    later than [datetime.fromtimestamp(last_check_time)], both being local
    times without a zone; a stamp that does not parse raises. *)
Fixpoint new_messages_since (fromtimestamp : Z -> Z) (last_check_time : Z)
    (queue : list LogEntry) : Outcome (list LogEntry) :=
  match queue with
  | [] => Returned []
  | log :: rest =>
      match strptime (Log.timestamp log) with
      | None => Raised (strptime_error (Log.timestamp log))
      | Some d =>
          match new_messages_since fromtimestamp last_check_time rest with
          | Raised e => Raised e
          | Returned r =>
              Returned (if fromtimestamp last_check_time <? to_micro d
                        then log :: r else r)
          end
      end
  end.

(** The handler of the loop: print the error, then [break].  Whether or
    not that [print] succeeds, the thread is over. *)
Definition loop_failed (env : TickEnv) (e : PyExc) (p : Poller) (out : Console)
  : Poller * Console :=
  (set_status p Finished,
   fst (print (loop_print_fault env) ("Error in monitoring loop: " ++ exc_str e) out)).

(** One iteration of the [while True] loop of [monitoring_loop], on the
    queue as it is when the lock is taken. *)
Definition monitoring_iteration (env : TickEnv) (queue : list LogEntry)
    (p : Poller) (out : Console) : Poller * Console :=
  match status p with
  | Finished => (p, out)
  | Running =>
      let current_time := time_time env in
      if Qle_bool (interval_seconds p) ((current_time - last_check_time p) # 1000000) then
        match new_messages_since (fromtimestamp env) (last_check_time p) queue with
        | Raised e => loop_failed env e p out
        | Returned new_messages =>
            if truthy_list new_messages && bool_decide (is_Some (callback p)) then
              let p := add_delivery p new_messages in
              match callback_fault env with
              | Some e => loop_failed env e p out
              | None => (set_last_check_time p current_time, out)
              end
            else (set_last_check_time p current_time, out)
        end
      else (p, out)
  end.

(** What [enable_real_time_monitoring] meets outside: the reading of
    [time.time()] with which the new thread starts, and the exception of
    the [print]. *)
Record EnableEnv : Type := mk_enable_env {
  thread_start_time : Z;
  enable_print_fault : option PyExc
}.

(** [enable_real_time_monitoring]: a new daemon thread is created and
    started, then one line is printed. *)
Definition enable_real_time_monitoring (env : EnableEnv) (callback : option nat)
    (interval_seconds : Q) (w : World) : World * Outcome unit :=
  let monitor_thread :=
    mk_poller callback interval_seconds (thread_start_time env) Running [] in
  let w := set_pollers w (pollers w ++ [monitor_thread])%list in
  match print (enable_print_fault env) "Real-time monitoring enabled" (console w) with
  | (out, Returned _) => (set_console w out, Returned tt)
  | (out, Raised e) => (set_console w out, Raised e)
  end.

(** *** The process as a transition system *)

Inductive Method : Type := Trace | Debug | Info | Warn | Error | Critical.

(** The six ingestion methods. *)
Definition ingest (m : Method) :
    RecordEnv -> string -> string -> string -> World -> World * Outcome unit :=
  match m with
  | Trace => trace | Debug => debug | Info => info
  | Warn => warn | Error => error | Critical => critical
  end.

(** A call of a public method of the instance, with what it meets
    outside. *)
Inductive ApiCall : Type :=
| CallIngest (m : Method) (env : RecordEnv) (message component function : string)
| CallConfigureEnhanced (env : ConfigEnv) (config : EnhancedConfig)
| CallGetLocalLogs (component level : string) (limit : Z)
| CallGetLogStatistics
| CallClearLocalLogs
| CallExportLogsToFile (env : ExportEnv) (file_path format : string)
| CallEnableRealTimeMonitoring (env : EnableEnv) (callback : option nat) (interval_seconds : Q)
| CallCreateLogFilter (component level min_importance : string).

(** The world after a call, whatever it returned or raised. *)
Definition api_step (c : ApiCall) (w : World) : World :=
  match c with
  | CallIngest m env message component function =>
      fst (ingest m env message component function w)
  | CallConfigureEnhanced env config => fst (configure_enhanced env config w)
  | CallGetLocalLogs _ _ _ => w
  | CallGetLogStatistics => w
  | CallClearLocalLogs => set_self w (clear_local_logs (self w))
  | CallExportLogsToFile env file_path format =>
      fst (export_logs_to_file env file_path format w)
  | CallEnableRealTimeMonitoring env callback interval_seconds =>
      fst (enable_real_time_monitoring env callback interval_seconds w)
  | CallCreateLogFilter _ _ _ => w
  end.

(** What happens in the process: a call by the application, or one
    iteration of the loop of the [i]-th monitor thread. *)
Inductive Event : Type :=
| Api (c : ApiCall)
| Tick (i : nat) (env : TickEnv).

Definition step (ev : Event) (w : World) : World :=
  match ev with
  | Api c => api_step c w
  | Tick i env =>
      match pollers w !! i with
      | None => w
      | Some p =>
          let '(p', out) :=
            monitoring_iteration env (_local_queue (self w)) p (console w) in
          set_console (set_pollers w (<[i := p']> (pollers w))) out
      end
  end.

Definition run (evs : list Event) (w : World) : World :=
  fold_left (fun w ev => step ev w) evs w.

Definition is_running (p : Poller) : bool :=
  match status p with Running => true | Finished => false end.

(** The number of monitor threads whose loop is running. *)
Definition running_pollers (w : World) : nat :=
  length (filter (fun p => is_running p = true) (pollers w)).

(** *** Sequences of ingestion calls *)

(** One call of [trace], [debug], [info], [warn], [error] or [critical],
    with its arguments and what it meets outside. *)
Record Ingestion : Type := mk_ingestion {
  ing_method : Method;
  ing_env : RecordEnv;
  ing_message : string;
  ing_component : string;
  ing_function : string
}.

(** The level string each method passes on. *)
Definition method_name (m : Method) : string :=
  match m with
  | Trace => "trace" | Debug => "debug" | Info => "info"
  | Warn => "warn" | Error => "error" | Critical => "critical"
  end.

Definition ingest_one (c : Ingestion) (w : World) : World * Outcome unit :=
  ingest (ing_method c) (ing_env c) (ing_message c) (ing_component c) (ing_function c) w.

(** The calls made one after the other, whatever each returned. *)
Definition ingest_all (cs : list Ingestion) (w : World) : World :=
  fold_left (fun w c => fst (ingest_one c w)) cs w.

(** The entry a call inserts. *)
Definition entry_of (c : Ingestion) : LogEntry :=
  make_entry (ing_env c) (method_name (ing_method c))
             (ing_message c) (ing_component c) (ing_function c).

(** The last [n] elements of [l] (all of [l] when it is shorter). *)
Definition most_recent {A} (n : nat) (l : list A) : list A :=
  drop (length l - n) l.

(** *** The filters of a query *)

(** What the two comprehensions of [get_local_logs] keep. *)
Definition passes (component level : string) (log : LogEntry) : Prop :=
  (component = "" \/ Log.component log = component) /\
  (level = "" \/ Log.level log = upper level).

(** The filter as the specification words it: the component equal to the
    filter, the level equal to it up to the case of the letters. *)
Definition matches_filters (component level : string) (log : LogEntry) : Prop :=
  (component = "" \/ Log.component log = component) /\
  (level = "" \/ upper (Log.level log) = upper level).

(** A queue whose level strings are in upper case, as [level.upper()]
    leaves them. *)
Definition levels_upper (queue : list LogEntry) : Prop :=
  Forall (fun log => upper (Log.level log) = Log.level log) queue.

(** *** Queues the logger builds *)

(** A queue whose stamps all parse. *)
Definition well_stamped (queue : list LogEntry) : Prop :=
  Forall (fun log => is_Some (strptime (Log.timestamp log))) queue.

(** The invariant of the queue of an instance. *)
Definition queue_ok (queue : list LogEntry) : Prop :=
  levels_upper queue /\ well_stamped queue /\ (length queue <= CAPACITY)%nat.

(** The world after a history of events in a process that started with a
    fresh logger. *)
Definition history_world (application_name process_name : string) (env : InitEnv)
    (history : list Event) : World :=
  run history (fresh_world application_name process_name env).


(** [time_range] is the time range of [queue]: zero below two entries,
    and from two entries on the seconds from the parsed stamp of the first
    entry to the parsed stamp of the last one. *)
Definition is_time_range (queue : list LogEntry) (time_range : Q) : Prop :=
  ((length queue < 2)%nat -> time_range = 0%Q) /\
  ((2 <= length queue)%nat ->
     exists (first final : LogEntry) (oldest newest : datetime),
       head queue = Some first /\ last queue = Some final /\
       strptime (Log.timestamp first) = Some oldest /\
       strptime (Log.timestamp final) = Some newest /\
       time_range = total_seconds_between newest oldest).

(** *** Failures of the export, as the caller can see them *)

Definition supported_format (format : string) : bool :=
  String.eqb (lower format) "json" || String.eqb (lower format) "csv"
  || String.eqb (lower format) "txt".

(** The export cannot be made: the format is not one of the three, or the
    destination cannot be opened for writing. *)
Definition export_fails (env : ExportEnv) (format : string) : Prop :=
  supported_format format = false \/ is_Some (open_fault env).

(** The lines that a call added to the console. *)
Definition printed (before after : World) : list string :=
  drop (length (console before)) (console after).

(** The caller is informed of a failure: the call does not end as a
    successful call does, an exception leaves it.  (The method has no
    return value, and a line on the console reaches whoever reads the
    console, not the code that called.) *)
Definition reports_failure (r : Outcome unit) : Prop :=
  exists e : PyExc, r = Raised e.

(** What the specification asks of a failing export. *)
Definition failing_export_contract (env : ExportEnv) (file_path format : string)
    (w : World) : Prop :=
  export_fails env format ->
  let w' := fst (export_logs_to_file env file_path format w) in
  let r := snd (export_logs_to_file env file_path format w) in
  files w' = files w /\
  reports_failure r /\
  _local_queue (self w') = _local_queue (self w).

(** The file that a complete export leaves, if it writes one. *)
Definition export_document (format : string) (logs : list LogEntry) : option FileContent :=
  if String.eqb (lower format) "json" then Some (JsonDump logs)
  else if String.eqb (lower format) "csv" then
    (if truthy_list logs then Some (CsvDump entry_keys logs) else None)
  else if String.eqb (lower format) "txt" then Some (Text (txt_export logs))
  else None.

(** *** Monitoring, as an observer sees it *)

(** At most one monitor loop is running. *)
Definition at_most_one_poller (w : World) : Prop :=
  (running_pollers w <= 1)%nat.

(** In [after], the [i]-th monitor thread has called its callback once
    more than [p], its record before. *)
Definition called_back (p : Poller) (after : World) (i : nat) : Prop :=
  exists (p1 : Poller) (msgs : list LogEntry),
    pollers after !! i = Some p1 /\
    delivered p1 = (delivered p ++ [msgs])%list.

(** *** Sample data *)

Definition sample_init : InitEnv := mk_init_env 4242 false None.

Definition sample_world : World := fresh_world "App" "" sample_init.

(** A call environment in which nothing fails. *)
Definition quiet (d : datetime) (ok : valid d = true) : RecordEnv :=
  mk_record_env d ok None None None.

Definition sample_calls : list Ingestion :=
  [ mk_ingestion Info (quiet (mk_datetime 2024 3 9 7 5 1 123456) eq_refl)
                 "started" "Core" "main";
    mk_ingestion Error (quiet (mk_datetime 2024 3 9 7 5 2 500999) eq_refl)
                 "failed" "Net" "";
    mk_ingestion Info (quiet (mk_datetime 2024 3 9 7 5 3 623001) eq_refl)
                 "retried" "Net" "" ].

(** An ingestion call as an event of the process. *)
Definition ingestion_event (c : Ingestion) : Event :=
  Api (CallIngest (ing_method c) (ing_env c) (ing_message c) (ing_component c)
                  (ing_function c)).

Definition sample_history : list Event := map ingestion_event sample_calls.

(** The world after the three sample calls. *)
Definition sample_logged : World := history_world "App" "" sample_init sample_history.

(** An export to a destination that cannot be opened for writing. *)
Definition permission_denied : PyExc :=
  Exc "PermissionError" "[Errno 13] Permission denied: '/proc/out.json'".

Definition unwritable : ExportEnv :=
  mk_export_env (Some permission_denied) None None None.

(** A console that is closed: every [print] raises. *)
Definition closed_stdout : PyExc := Exc "ValueError" "I/O operation on closed file.".

Definition dead_console (d : datetime) (ok : valid d = true) : RecordEnv :=
  mk_record_env d ok None (Some closed_stdout) (Some closed_stdout).

(** The time zone of the samples is UTC: [datetime.fromtimestamp(t)] is
    the datetime [t] microseconds after the first of January 1970. *)
Definition epoch : datetime := mk_datetime 1970 1 1 0 0 0 0.

Definition utc (t : Z) : Z := to_micro epoch + t.

(** The reading of [time.time()] when the clocks in UTC show [d]. *)
Definition utc_reading (d : datetime) : Z := to_micro d - to_micro epoch.

Definition sample_enable : EnableEnv :=
  mk_enable_env (utc_reading (mk_datetime 2024 3 9 7 5 0 0)) None.

(** The sample world with one monitor thread, whose callback is the
    callable number 7. *)
Definition sample_monitored : World :=
  fst (enable_real_time_monitoring sample_enable (Some 7%nat) 1 sample_logged).

(** An iteration, four seconds later, in which the callback raises. *)
Definition sample_failing_tick : TickEnv :=
  mk_tick_env (utc_reading (mk_datetime 2024 3 9 7 5 4 0)) utc
              (Some (Exc "RuntimeError" "observer failed")) None.

(** An iteration, five seconds after that one, in which it would not. *)
Definition sample_later_tick : TickEnv :=
  mk_tick_env (utc_reading (mk_datetime 2024 3 9 7 5 9 0)) utc None None.

(** The first of the sample calls, and the monitor thread of
    [sample_monitored] as it starts. *)
Definition sample_call : Ingestion :=
  mk_ingestion Info (quiet (mk_datetime 2024 3 9 7 5 1 123456) eq_refl)
               "started" "Core" "main".

Definition sample_poller : Poller :=
  mk_poller (Some 7%nat) 1 (thread_start_time sample_enable) Running [].

(** What happens after the failing iteration: one more entry, and one
    more iteration of the same thread. *)
Definition sample_later : list Event :=
  [ Api (CallIngest Warn (quiet (mk_datetime 2024 3 9 7 5 8 0) eq_refl) "again" "Net" "");
    Tick 0 sample_later_tick ].

End Logger.

Import Logger.

(** ** Construction of an instance, and the functions of the module *)

Module Startup.

(** The two enumerations of the module, with their values. *)
Inductive LogLevel : Type := TRACE | DEBUG | INFO | WARN | ERROR | CRITICAL.

Definition LogLevel_value (l : LogLevel) : Z :=
  match l with
  | TRACE => 0 | DEBUG => 1 | INFO => 2 | WARN => 3 | ERROR => 4 | CRITICAL => 5
  end.

Definition LogLevel_name (l : LogLevel) : string :=
  match l with
  | TRACE => "TRACE" | DEBUG => "DEBUG" | INFO => "INFO"
  | WARN => "WARN" | ERROR => "ERROR" | CRITICAL => "CRITICAL"
  end.

Inductive MessageImportance : Type := LOW | MEDIUM | HIGH | IMPORTANCE_CRITICAL.

Definition MessageImportance_value (i : MessageImportance) : Z :=
  match i with LOW => 0 | MEDIUM => 1 | HIGH => 2 | IMPORTANCE_CRITICAL => 3 end.

(** What a method under construction works on: the instance, the path of
    the library it loaded ([_cpp_library]), the console, and the
    exceptions that the next writes to the console raise, one per
    [print] (none once the list is used up). *)
Record Ctx : Type := mk_ctx {
  this : ASFMLoggerPython;
  _cpp_library : option string;
  stdout : Console;
  script : list (option PyExc)
}.

(** A computation that reads and changes the context and returns a value
    or raises. *)
Definition Init (A : Type) : Type := Ctx -> Ctx * Outcome A.

#[export] Instance Init_ret : MRet Init :=
  fun A (v : A) (c : Ctx) => (c, Returned v).

#[export] Instance Init_bind : MBind Init :=
  fun A B (k : A -> Init B) (m : Init A) (c : Ctx) =>
    match m c with
    | (c', Returned v) => k v c'
    | (c', Raised e) => (c', Raised e)
    end.

Definition raise {A} (e : PyExc) : Init A := fun c => (c, Raised e).

(** [try: body  except Exception as e: handler(e)] *)
Definition try_except {A} (body : Init A) (handler : PyExc -> Init A) : Init A :=
  fun c =>
    match body c with
    | (c', Returned v) => (c', Returned v)
    | (c', Raised e) => handler e c'
    end.

Definition get_this : Init ASFMLoggerPython := fun c => (c, Returned (this c)).

Definition set_this (s : ASFMLoggerPython) : Init unit :=
  fun c => (mk_ctx s (_cpp_library c) (stdout c) (script c), Returned tt).

Definition set_cpp_library (path : string) : Init unit :=
  fun c => (mk_ctx (this c) (Some path) (stdout c) (script c), Returned tt).

(** [print(line)] *)
Definition print_line (line : string) : Init unit :=
  fun c =>
    match script c with
    | Some e :: rest => (mk_ctx (this c) (_cpp_library c) (stdout c) rest, Raised e)
    | None :: rest =>
        (mk_ctx (this c) (_cpp_library c) (stdout c ++ [line])%list rest, Returned tt)
    | [] => (mk_ctx (this c) (_cpp_library c) (stdout c ++ [line])%list [], Returned tt)
    end.

Definition with_library_loaded (s : ASFMLoggerPython) (b : bool) : ASFMLoggerPython :=
  mk_logger (application_name s) (process_name s) (_logger s) b (_local_queue s).

Definition with_logger (s : ASFMLoggerPython) (h : option Z) : ASFMLoggerPython :=
  mk_logger (application_name s) (process_name s) h (_library_loaded s) (_local_queue s).

(** What the constructor finds outside: the process id, which paths
    exist ([os.path.exists]), the exception of [ctypes.CDLL] on a path,
    the exception of setting the signatures, and what encoding the names
    and calling [getInstance] gives: a handle (or [None] for a null
    pointer) or an exception. *)
Record LoadEnv : Type := mk_load_env {
  getpid : Z;
  path_exists : string -> bool;
  cdll_fault : string -> option PyExc;
  setup_fault : option PyExc;
  getInstance : Outcome (option Z)
}.

Definition library_paths : list string :=
  [ "lib/ASFMLogger.dll"; "lib/libASFMLogger.so"; "lib/libASFMLogger.dylib";
    "build/Release/ASFMLogger.dll"; "build/ASFMLogger.dll" ].

(** [_setup_cpp_function_signatures] *)
Definition _setup_cpp_function_signatures (env : LoadEnv) : Init unit :=
  try_except
    (match setup_fault env with Some e => raise e | None => mret tt end)
    (fun e => print_line ("Warning: Failed to setup C++ function signatures: " ++ exc_str e)).

(** The [for] loop of [_load_cpp_library]: the first path that exists is
    loaded, and the loop ends there. *)
Definition load_first_existing (env : LoadEnv) : Init unit :=
  match List.find (path_exists env) library_paths with
  | None => mret tt
  | Some path =>
      match cdll_fault env path with
      | Some e => raise e
      | None =>
          set_cpp_library path;;
          s ← get_this;
          set_this (with_library_loaded s true)
      end
  end.

(** [_load_cpp_library] *)
Definition _load_cpp_library (env : LoadEnv) : Init unit :=
  try_except
    (load_first_existing env;;
     s ← get_this;
     if negb (_library_loaded s) then
       print_line "Warning: ASFMLogger C++ library not found. Running in local-only mode."
     else _setup_cpp_function_signatures env)
    (fun e =>
       print_line ("Warning: Failed to load C++ library: " ++ exc_str e);;
       print_line "Running in local-only mode with limited functionality.").

(** [_initialize_enhanced_features] *)
Definition _initialize_enhanced_features (env : LoadEnv) : Init unit :=
  s ← get_this;
  if negb (_library_loaded s) then mret tt
  else
    try_except
      (match getInstance env with
       | Raised e => raise e
       | Returned h =>
           set_this (with_logger s h);;
           if truthy_handle h
           then print_line ("Enhanced ASFMLogger initialized for " ++ application_name s)
           else mret tt
       end)
      (fun e => print_line ("Warning: Failed to initialize enhanced features: " ++ exc_str e)).

(** [ASFMLoggerPython(application_name, process_name)]: the body of
    [__init__], with what it prints and the exception that may leave it.
    The instance is the [this] of the context when the call returns. *)
Definition construct (application_name process_name : string) (env : LoadEnv)
    (out : Console) (faults : list (option PyExc)) : Ctx * Outcome unit :=
  let fresh :=
    mk_logger application_name
              (if truthy_str process_name then process_name
               else "Python_" ++ pretty (getpid env))
              None false [] in
  (_load_cpp_library env;; _initialize_enhanced_features env)
    (mk_ctx fresh None out faults).

(** The defaults of [get_logger]. *)
Definition DEFAULT_APPLICATION : string := "PythonApp".
Definition DEFAULT_PROCESS : string := "".

(** [get_logger] *)
Definition get_logger (application_name process_name : string) (env : LoadEnv)
    (out : Console) (faults : list (option PyExc)) : Ctx * Outcome unit :=
  construct application_name process_name env out faults.

(** What the functions of the module work on: the global instance, the
    console and the calls delivered to the native library. *)
Record Runtime : Type := mk_runtime {
  _global_logger : option ASFMLoggerPython;
  rt_console : Console;
  rt_native_calls : list NativeCall
}.

(** The world of one instance inside the runtime. *)
Definition world_of (rt : Runtime) (s : ASFMLoggerPython) : World :=
  mk_world s (rt_console rt) (rt_native_calls rt) ∅ [].

(** What [quick_log] meets outside: the constructor's and the call's. *)
Record QuickEnv : Type := mk_quick_env {
  quick_load : LoadEnv;
  quick_faults : list (option PyExc);
  quick_record : RecordEnv
}.

(** The method that [quick_log] calls for a level, if any. *)
Definition method_of_level (level : string) : option Method :=
  if String.eqb (upper level) "TRACE" then Some Trace
  else if String.eqb (upper level) "DEBUG" then Some Debug
  else if String.eqb (upper level) "INFO" then Some Info
  else if String.eqb (upper level) "WARN" then Some Warn
  else if String.eqb (upper level) "ERROR" then Some Error
  else if String.eqb (upper level) "CRITICAL" then Some Critical
  else None.

(** [quick_log]: a logger of its own is built for the call (with the
    defaults of [get_logger]) and is dropped when the call ends; the
    result carries it for reference. *)
Definition quick_log (env : QuickEnv) (message level component : string)
    (rt : Runtime) : Runtime * option ASFMLoggerPython * Outcome unit :=
  match get_logger DEFAULT_APPLICATION DEFAULT_PROCESS (quick_load env)
          (rt_console rt) (quick_faults env) with
  | (c, Raised e) =>
      (mk_runtime (_global_logger rt) (stdout c) (rt_native_calls rt), None, Raised e)
  | (c, Returned _) =>
      let rt := mk_runtime (_global_logger rt) (stdout c) (rt_native_calls rt) in
      match method_of_level level with
      | None => (rt, Some (this c), Returned tt)
      | Some m =>
          let '(w, r) := ingest m (quick_record env) message component "" (world_of rt (this c)) in
          (mk_runtime (_global_logger rt) (console w) (native_calls w), Some (self w), r)
      end
  end.

(** What [configure_global_logger] meets outside. *)
Record GlobalEnv : Type := mk_global_env {
  global_load : LoadEnv;
  global_faults : list (option PyExc);
  global_config : ConfigEnv
}.

(** The options that [configure_global_logger] passes on: its three
    arguments and the defaults of [configure_enhanced] for the rest. *)
Definition global_options (enable_database : bool)
    (database_connection log_file : string) : EnhancedConfig :=
  mk_enhanced_config enable_database database_connection false "" true log_file
                     10485760 5 "INFO".

(** [configure_global_logger]: the global instance is replaced by a new
    one, which is then configured and returned. *)
Definition configure_global_logger (env : GlobalEnv) (application_name : string)
    (enable_database : bool) (database_connection log_file : string)
    (rt : Runtime) : Runtime * Outcome ASFMLoggerPython :=
  match construct application_name "" (global_load env) (rt_console rt) (global_faults env) with
  | (c, Raised e) =>
      (mk_runtime (_global_logger rt) (stdout c) (rt_native_calls rt), Raised e)
  | (c, Returned _) =>
      let rt := mk_runtime (Some (this c)) (stdout c) (rt_native_calls rt) in
      let '(w, r) :=
        configure_enhanced (global_config env)
          (global_options enable_database database_connection log_file)
          (world_of rt (this c)) in
      let rt := mk_runtime (Some (self w)) (console w) (native_calls w) in
      match r with
      | Returned _ => (rt, Returned (self w))
      | Raised e => (rt, Raised e)
      end
  end.

(** [get_global_logger] *)
Definition get_global_logger (rt : Runtime) : option ASFMLoggerPython :=
  _global_logger rt.

(** The runtime when the module has just been imported. *)
Definition imported : Runtime := mk_runtime None [] [].

End Startup.

Import Startup.

(** ** Notions used to state the properties *)

Module Notions.

(** The number of entries of [logs] whose [key] is [k]. *)
Definition count_of (key : LogEntry -> string) (k : string) (logs : list LogEntry) : nat :=
  length (filter (fun log => key log = k) logs).

(** What a distribution must hold for [k]: the count, or no key at all
    when the count is zero. *)
Definition count_entry (n : nat) : option nat :=
  if (n =? 0)%nat then None else Some n.

(** No other thread changes the list while [get_log_statistics] runs:
    every read of the call finds [queue]. *)
Definition unchanged (queue : list LogEntry) (logs : Live) : Prop :=
  Forall (fun found => found = queue) (seen logs) /\ settled logs = queue.

(** One more call, made by another thread while [get_log_statistics]
    runs on the queue of the three sample calls. *)
Definition concurrent_call : Ingestion :=
  mk_ingestion Warn (quiet (mk_datetime 2024 3 9 7 5 3 900000) eq_refl) "slow" "Net" "".

Definition sample_queue : list LogEntry := _local_queue (self sample_logged).

Definition sample_queue_later : list LogEntry :=
  _local_queue (self (fst (ingest_one concurrent_call sample_logged))).

(** That call appends its entry when the two counting loops are over:
    nine reads find the three entries (the truth test and, in each loop,
    three entries and the end), the reads after them find four. *)
Definition appended_after_counting : Live :=
  mk_live (replicate 9 sample_queue) sample_queue_later.

(** That call appends its entry between the two [len(logs)] of the
    returned [dict]: thirteen reads find the three entries. *)
Definition appended_before_rate : Live :=
  mk_live (replicate 13 sample_queue) sample_queue_later.

(** Another thread calls [clear_local_logs] after the test
    [len(logs) >= 2] and before [logs[0]]. *)
Definition cleared_before_first : Live :=
  mk_live (replicate 10 sample_queue) [].

(** The six level names that the ingestion methods store. *)
Definition level_names : list string :=
  ["TRACE"; "DEBUG"; "INFO"; "WARN"; "ERROR"; "CRITICAL"].

(** The shape of an entry that an ingestion method builds: a level among
    the six names, a stamp of 23 characters that parses, and a formatted
    message made of the stamp, the component and the message. *)
Definition entry_shape (log : LogEntry) : Prop :=
  Log.level log ∈ level_names /\
  String.length (Log.timestamp log) = 23%nat /\
  is_Some (strptime (Log.timestamp log)) /\
  Log.formatted_message log =
    "[" ++ Log.timestamp log ++ "] [" ++ Log.component log ++ "] " ++ Log.message log.

(** The word that [_output_to_python_logging] prints before the message. *)
Definition console_word (m : Method) : string :=
  match m with
  | Trace => "TRACE" | Debug => "DEBUG" | Info => "INFO"
  | Warn => "WARNING" | Error => "ERROR" | Critical => "CRITICAL"
  end.

(** [e] with the failure [fault] of the native block. *)
Definition with_native_fault (env : RecordEnv) (fault : option PyExc) : RecordEnv :=
  mk_record_env (now env) (now_valid env) fault (print_fault env) (handler_print_fault env).

(** The parsed stamp of [log] is later than the local time [t]
    (microseconds on the scale of [to_micro]). *)
Definition stamped_after (t : Z) (log : LogEntry) : Prop :=
  match strptime (Log.timestamp log) with
  | Some d => t < to_micro d
  | None => False
  end.

#[export] Instance stamped_after_dec (t : Z) (log : LogEntry) : Decision (stamped_after t log).
Proof.
  unfold stamped_after. destruct (strptime (Log.timestamp log)); apply _.
Defined.


(** The batches that the [i]-th monitor thread has delivered in [w]. *)
Definition batches (w : World) (i : nat) : list (list LogEntry) :=
  match pollers w !! i with
  | Some p => delivered p
  | None => []
  end.

(** An instance that runs in local-only mode: no library, or no handle. *)
Definition local_only (s : ASFMLoggerPython) : Prop :=
  truthy_handle (_logger s) && _library_loaded s = false.

(** An export environment in which nothing fails. *)
Definition export_ok : ExportEnv := mk_export_env None None None None.

(** What holds of the record of a monitor thread: it never passed an
    empty list to its callback, and passed nothing at all when it has no
    callback. *)
Definition poller_ok (p : Poller) : Prop :=
  Forall (fun batch => batch <> []) (delivered p) /\
  (callback p = None -> delivered p = []).

(** A monitor thread that starts at 07:05:02, after the first sample call
    and before the two others. *)
Definition sample_enable_late : EnableEnv :=
  mk_enable_env (utc_reading (mk_datetime 2024 3 9 7 5 2 0)) None.

Definition sample_monitored_late : World :=
  fst (enable_real_time_monitoring sample_enable_late (Some 7%nat) 1 sample_logged).

Definition sample_poller_late : Poller :=
  mk_poller (Some 7%nat) 1 (thread_start_time sample_enable_late) Running [].


(** A zone that ends its daylight saving time at the reading [change]:
    two hours ahead of UTC before it, one hour from it on. *)
Definition fall_back (change : Z) (t : Z) : Z :=
  if t <? change then utc t + 7200000000 else utc t + 3600000000.

(** The night of such a change, at 01:00 UTC: a call at 02:45 local
    summer time, in a process whose monitor thread started at 02:30, and
    three iterations of the thread, at 02:50 summer time and at 02:05 and
    02:10 winter time. *)
Definition fall_back_zone : Z -> Z :=
  fall_back (utc_reading (mk_datetime 2024 10 27 1 0 0 0)).

Definition fall_back_call : Ingestion :=
  mk_ingestion Warn (quiet (mk_datetime 2024 10 27 2 45 0 250000) eq_refl)
               "late" "Net" "".

Definition fall_back_world : World :=
  fst (ingest_one fall_back_call
         (fst (enable_real_time_monitoring
                 (mk_enable_env (utc_reading (mk_datetime 2024 10 27 0 30 0 0)) None)
                 (Some 7%nat) 1 sample_world))).

Definition fall_back_ticks : list Event :=
  [ Tick 0 (mk_tick_env (utc_reading (mk_datetime 2024 10 27 0 50 0 0))
                        fall_back_zone None None);
    Tick 0 (mk_tick_env (utc_reading (mk_datetime 2024 10 27 1 5 0 0))
                        fall_back_zone None None);
    Tick 0 (mk_tick_env (utc_reading (mk_datetime 2024 10 27 1 10 0 0))
                        fall_back_zone None None) ].


(** The library that the constructor ends up with: the first path of
    [library_paths] that exists, when [ctypes.CDLL] loads it. *)
Definition found_library (env : LoadEnv) : option string :=
  match List.find (path_exists env) library_paths with
  | Some path =>
      match cdll_fault env path with
      | Some _ => None
      | None => Some path
      end
  | None => None
  end.

(** A place without any library file. *)
Definition no_library : LoadEnv :=
  mk_load_env 4242 (fun _ => false) (fun _ => None) None (Returned None).

(** A place where the Linux library exists and does not load, and where
    the library of the Visual Studio build exists and would load. *)
Definition broken_library : LoadEnv :=
  mk_load_env 4242
    (fun path => String.eqb path "lib/libASFMLogger.so" ||
                 String.eqb path "build/Release/ASFMLogger.dll")
    (fun path => if String.eqb path "lib/libASFMLogger.so"
                 then Some (Exc "OSError" "invalid ELF header") else None)
    None (Returned (Some 140)).

End Notions.

Import Notions.

(** * Properties *)

(** ** The bounded queue *)

Section Capacity.

Lemma most_recent_short {A} (n : nat) (l : list A) :
  (length l <= n)%nat -> most_recent n l = l.
Proof.
  intros H. unfold most_recent.
  replace (length l - n)%nat with 0%nat by lia. reflexivity.
Qed.

Lemma length_most_recent {A} (n : nat) (l : list A) :
  length (most_recent n l) = Nat.min (length l) n.
Proof. unfold most_recent. rewrite length_drop. lia. Qed.

(** Appending to a full window drops its head. *)
Lemma most_recent_snoc_full {A} (n : nat) (l : list A) (x : A) :
  (n <= length l)%nat ->
  most_recent n (l ++ [x]) = (tail (most_recent n l ++ [x]))%list.
Proof.
  intros H. unfold most_recent. rewrite length_app. simpl.
  replace (length l + 1 - n)%nat with (S (length l - n)) by lia.
  rewrite <- drop_app_le by lia.
  generalize (length l - n)%nat as k. generalize (l ++ [x])%list as m.
  intros m k. revert m. induction k as [|k IH]; intros [|y m]; simpl; auto.
Qed.

Lemma enqueue_most_recent (e : LogEntry) (l : list LogEntry) :
  enqueue e (most_recent CAPACITY l) = most_recent CAPACITY (l ++ [e]).
Proof.
  unfold enqueue. generalize CAPACITY as n. intros n.
  rewrite length_app, length_most_recent. simpl.
  destruct (Nat.ltb_spec n (Nat.min (length l) n + 1)) as [Hfull|Hroom].
  - rewrite most_recent_snoc_full by lia. reflexivity.
  - rewrite (most_recent_short n l) by lia.
    rewrite most_recent_short; [reflexivity|]. rewrite length_app. simpl. lia.
Qed.

Lemma log_with_component_queue env lvl msg comp func w :
  _local_queue (self (fst (_log_with_component env lvl msg comp func w))) =
  enqueue (make_entry env lvl msg comp func) (_local_queue (self w)).
Proof.
  unfold _log_with_component.
  destruct (_output_to_python_logging _ _ _ _) as [out [u|e]]; simpl; [reflexivity|].
  destruct (print _ _ _) as [out' [u|e']]; reflexivity.
Qed.

Lemma ingest_one_queue c w :
  _local_queue (self (fst (ingest_one c w))) =
  enqueue (entry_of c) (_local_queue (self w)).
Proof.
  unfold ingest_one, entry_of. destruct c as [m env msg comp func]; simpl.
  destruct m; apply log_with_component_queue.
Qed.

Lemma ingest_all_snoc cs c w :
  ingest_all (cs ++ [c]) w = fst (ingest_one c (ingest_all cs w)).
Proof. unfold ingest_all. rewrite fold_left_app. reflexivity. Qed.

Lemma ingest_all_queue cs w :
  _local_queue (self w) = [] ->
  _local_queue (self (ingest_all cs w)) = most_recent CAPACITY (map entry_of cs).
Proof.
  intros Hw. induction cs as [|c cs IH] using rev_ind.
  - simpl. rewrite Hw. reflexivity.
  - rewrite ingest_all_snoc, ingest_one_queue, IH, map_app. simpl.
    apply enqueue_most_recent.
Qed.

(** C1.  From a freshly constructed logger, after any sequence of calls of
    the six ingestion methods (so after each call of any longer
    sequence), the queue holds [min (number of calls) 1000] entries, and
    they are the entries of the last 1000 calls (or of all of them) in
    the order of the calls; a call made on a full queue removes the one
    oldest entry and appends its own. *)
Theorem capacity_invariant (application_name process_name : string) (ienv : InitEnv)
    (calls : list Ingestion) :
  let w0 := fresh_world application_name process_name ienv in
  let queue := _local_queue (self (ingest_all calls w0)) in
  CAPACITY = 1000%nat /\
  length queue = Nat.min (length calls) CAPACITY /\
  queue = most_recent CAPACITY (map entry_of calls) /\
  forall c : Ingestion,
    let queue' := _local_queue (self (ingest_all (calls ++ [c]) w0)) in
    ((length calls < CAPACITY)%nat -> queue' = (queue ++ [entry_of c])%list) /\
    ((CAPACITY <= length calls)%nat -> queue' = (tail queue ++ [entry_of c])%list).
Proof.
  intros w0 queue.
  assert (Hq : queue = most_recent CAPACITY (map entry_of calls))
    by (apply ingest_all_queue; reflexivity).
  split; [reflexivity|]. split; [|split; [exact Hq|]].
  - rewrite Hq, length_most_recent, length_map. reflexivity.
  - intros c queue'.
    assert (Hq' : queue' = enqueue (entry_of c) queue).
    { unfold queue'. rewrite ingest_all_snoc. apply ingest_one_queue. }
    assert (Hlen : length queue = Nat.min (length calls) CAPACITY).
    { rewrite Hq, length_most_recent, length_map. reflexivity. }
    rewrite Hq'. unfold enqueue. rewrite length_app. simpl. rewrite Hlen.
    assert (Hpos : (0 < CAPACITY)%nat) by (unfold CAPACITY; lia).
    generalize dependent CAPACITY. intros n Hq Hlen Hpos. split; intros H.
    + destruct (Nat.ltb_spec n (Nat.min (length calls) n + 1)); [lia|reflexivity].
    + destruct (Nat.ltb_spec n (Nat.min (length calls) n + 1)); [|lia].
      destruct queue as [|x queue0]; simpl in *; [lia|reflexivity].
Qed.

End Capacity.

(** ** Queries *)

Section Query.

Lemma filter_ext_Forall {A} (P Q : A -> Prop)
    `{!forall x, Decision (P x), !forall x, Decision (Q x)} (l : list A) :
  Forall (fun x => P x <-> Q x) l -> filter P l = filter Q l.
Proof.
  induction 1 as [|x l Hx _ IH]; [reflexivity|].
  rewrite !filter_cons, IH.
  destruct (decide (P x)), (decide (Q x)); tauto.
Qed.

Lemma filter_all {A} (P : A -> Prop) `{!forall x, Decision (P x)} (l : list A) :
  (forall x, P x) -> filter P l = l.
Proof.
  intros Hall. induction l as [|x l IH]; [reflexivity|].
  rewrite filter_cons, IH. destruct (decide (P x)) as [|n]; [reflexivity|].
  destruct n. apply Hall.
Qed.

Lemma truthy_str_false s : truthy_str s = false <-> s = "".
Proof. destruct s; simpl; split; congruence. Qed.

Lemma slice_from_nil {A} (z : Z) : slice_from z (@nil A) = [].
Proof. unfold slice_from. apply drop_nil. Qed.

(** The two comprehensions are one filter by [passes], and the guard on
    the emptiness of the result changes nothing. *)
Lemma get_local_logs_slice self component level limit :
  get_local_logs self component level limit =
  slice_from (- limit) (filter (passes component level) (_local_queue self)).
Proof.
  unfold get_local_logs.
  set (q := _local_queue self).
  assert (E : (let filtered_logs :=
                 if truthy_str component
                 then filter (fun log => Log.component log = component) q else q in
               if truthy_str level
               then filter (fun log => Log.level log = upper level) filtered_logs
               else filtered_logs) = filter (passes component level) q).
  { simpl. destruct (truthy_str component) eqn:Hc, (truthy_str level) eqn:Hl.
    - rewrite list_filter_filter. apply list_filter_iff. intros x. unfold passes.
      apply not_false_iff_true in Hc, Hl. rewrite truthy_str_false in Hc, Hl. tauto.
    - apply truthy_str_false in Hl. subst level. apply list_filter_iff.
      intros x. unfold passes.
      apply not_false_iff_true in Hc. rewrite truthy_str_false in Hc. tauto.
    - apply truthy_str_false in Hc. subst component. apply list_filter_iff.
      intros x. unfold passes.
      apply not_false_iff_true in Hl. rewrite truthy_str_false in Hl. tauto.
    - apply truthy_str_false in Hc, Hl. subst. symmetry. apply filter_all.
      intros x. unfold passes. tauto. }
  simpl in E. rewrite E.
  destruct (filter (passes component level) q); simpl; [|reflexivity].
  symmetry. apply slice_from_nil.
Qed.

Lemma slice_from_neg_limit {A} (limit : Z) (l : list A) :
  0 < limit -> slice_from (- limit) l = most_recent (Z.to_nat limit) l.
Proof.
  intros H. unfold slice_from, most_recent.
  destruct (Z.ltb_spec (- limit) 0); [|lia]. f_equal. lia.
Qed.

(** On a queue whose levels are in upper case, comparing the level with
    [level.upper()] is matching it up to case, and a positive [limit]
    keeps the tail of the filtered queue. *)
Lemma get_local_logs_on_upper_levels (self : ASFMLoggerPython)
    (component level : string) (limit : Z) :
  0 < limit ->
  levels_upper (_local_queue self) ->
  get_local_logs self component level limit =
  most_recent (Z.to_nat limit)
    (filter (matches_filters component level) (_local_queue self)).
Proof.
  intros Hlimit Hup.
  rewrite get_local_logs_slice, slice_from_neg_limit by exact Hlimit.
  f_equal. apply filter_ext_Forall.
  eapply Forall_impl; [exact Hup|]. intros log Hlog. simpl in Hlog.
  unfold passes, matches_filters. rewrite Hlog. tauto.
Qed.

(** C9.  With [limit = 0] the slice [filtered_logs[-0:]] is the whole
    filtered list, and with a negative limit [-p] it is the filtered list
    without its first [p] elements. *)
Theorem get_local_logs_nonpositive_limit (self : ASFMLoggerPython)
    (component level : string) :
  let filtered := filter (passes component level) (_local_queue self) in
  get_local_logs self component level 0 = filtered /\
  forall p : positive,
    get_local_logs self component level (Z.neg p) = drop (Pos.to_nat p) filtered.
Proof.
  intros filtered. split.
  - rewrite get_local_logs_slice. unfold slice_from. simpl.
    rewrite Z.min_l by lia. reflexivity.
  - intros p. rewrite get_local_logs_slice. fold filtered.
    unfold slice_from. simpl.
    destruct (Nat.le_gt_cases (length filtered) (Pos.to_nat p)) as [Hge|Hlt].
    + rewrite Z.min_r by lia. rewrite Nat2Z.id.
      rewrite !drop_ge by lia. reflexivity.
    + rewrite Z.min_l by lia. reflexivity.
Qed.

End Query.

(** ** Statistics *)

Section Statistics.

Lemma sum_values_insert_fresh (d : gmap string nat) (k : string) (v : nat) :
  d !! k = None -> sum_values (<[k := v]> d) = (v + sum_values d)%nat.
Proof.
  intros Hk. unfold sum_values.
  apply (map_fold_insert_L (fun _ v acc => (v + acc)%nat)); [|exact Hk].
  intros; lia.
Qed.

Lemma sum_values_lookup (d : gmap string nat) (k : string) (v : nat) :
  d !! k = Some v -> sum_values d = (v + sum_values (delete k d))%nat.
Proof.
  intros Hk. unfold sum_values.
  apply (map_fold_delete_L (fun _ v acc => (v + acc)%nat)); [|exact Hk].
  intros; lia.
Qed.

(** One step of the counting loop adds one to the sum of the counts. *)
Lemma sum_values_count_step (d : gmap string nat) (k : string) :
  sum_values (<[k := (default 0 (d !! k) + 1)%nat]> d) = S (sum_values d).
Proof.
  destruct (d !! k) as [v|] eqn:Hk; simpl.
  - rewrite <- insert_delete_eq.
    rewrite sum_values_insert_fresh by apply lookup_delete_eq.
    rewrite (sum_values_lookup d k v Hk). lia.
  - rewrite sum_values_insert_fresh by exact Hk. lia.
Qed.

Lemma sum_values_fold (key : LogEntry -> string) (logs : list LogEntry)
    (d : gmap string nat) :
  sum_values
    (fold_left (fun counts log =>
                  <[key log := (default 0 (counts !! key log) + 1)%nat]> counts) logs d)
  = (sum_values d + length logs)%nat.
Proof.
  revert d. induction logs as [|log logs IH]; intros d; simpl; [lia|].
  rewrite IH, sum_values_count_step. lia.
Qed.

Lemma sum_values_count_by (key : LogEntry -> string) (logs : list LogEntry) :
  sum_values (count_by key logs) = length logs.
Proof.
  unfold count_by. rewrite sum_values_fold.
  unfold sum_values. rewrite map_fold_empty. reflexivity.
Qed.

Lemma well_stamped_head (q : list LogEntry) (first : LogEntry) :
  well_stamped q -> head q = Some first -> is_Some (strptime (Log.timestamp first)).
Proof.
  intros Hq Hh. apply head_Some_elem_of in Hh.
  exact (proj1 (Forall_forall _ _) Hq _ Hh).
Qed.

Lemma well_stamped_last (q : list LogEntry) (final : LogEntry) :
  well_stamped q -> last q = Some final -> is_Some (strptime (Log.timestamp final)).
Proof.
  intros Hq Hl. apply last_Some_elem_of in Hl.
  exact (proj1 (Forall_forall _ _) Hq _ Hl).
Qed.

Lemma unchanged_still (q : list LogEntry) : unchanged q (still q).
Proof. split; [constructor|reflexivity]. Qed.

(** A read of a list that nobody changes. *)
Lemma look_unchanged (q : list LogEntry) (logs : Live) :
  unchanged q logs ->
  exists logs' : Live, look logs = (q, logs') /\ unchanged q logs'.
Proof.
  destruct logs as [sn st]. intros [Hseen Hset]. simpl in *. subst st.
  unfold look. simpl. destruct Hseen as [|found rest -> Hrest].
  - exists (mk_live [] q). split; [reflexivity|split; [constructor|reflexivity]].
  - exists (mk_live rest q). split; [reflexivity|split; [exact Hrest|reflexivity]].
Qed.

(** The loop on a list that nobody changes counts its entries. *)
Lemma counting_loop_unchanged (key : LogEntry -> string) (q : list LogEntry)
    (sn : list (list LogEntry)) (index : nat) (counts : gmap string nat) :
  Forall (fun found => found = q) sn ->
  exists logs' : Live,
    counting_loop key index sn q counts =
      (fold_left
         (fun counts log => <[key log := (default 0 (counts !! key log) + 1)%nat]> counts)
         (drop index q) counts, logs') /\
    unchanged q logs'.
Proof.
  intros Hseen. revert index counts.
  induction Hseen as [|found rest -> Hrest IH]; intros index counts; simpl.
  - exists (mk_live [] q). split; [reflexivity|apply unchanged_still].
  - destruct (q !! index) as [log|] eqn:Hlog.
    + rewrite (drop_S q log index Hlog). simpl. apply IH.
    + rewrite drop_ge by (apply lookup_ge_None; exact Hlog).
      exists (mk_live rest q). split; [reflexivity|split; [exact Hrest|reflexivity]].
Qed.

Lemma time_range_of_unchanged (q : list LogEntry) (logs : Live) :
  unchanged q logs ->
  exists logs' : Live,
    time_range_of logs = (logs', snd (time_range_of (still q))) /\ unchanged q logs'.
Proof.
  intros Hu. unfold time_range_of, still. cbn [look seen settled].
  destruct (look_unchanged q logs Hu) as (l1 & -> & Hu1).
  destruct (2 <=? length q)%nat; [|exists l1; split; [reflexivity|exact Hu1]].
  destruct (look_unchanged q l1 Hu1) as (l2 & -> & Hu2).
  destruct (head q) as [first|]; [|exists l2; split; [reflexivity|exact Hu2]].
  destruct (strptime (Log.timestamp first));
    [|exists l2; split; [reflexivity|exact Hu2]].
  destruct (look_unchanged q l2 Hu2) as (l3 & -> & Hu3).
  destruct (last q) as [final|]; [|exists l3; split; [reflexivity|exact Hu3]].
  destruct (strptime (Log.timestamp final)); exists l3; split;
    try reflexivity; exact Hu3.
Qed.

(** The statistics of a list that nobody changes during the call. *)
Lemma get_log_statistics_unchanged (q : list LogEntry) (logs : Live) :
  unchanged q logs ->
  get_log_statistics logs =
    if negb (truthy_list q) then Returned (mk_statistics 0 None None None None)
    else
      match snd (time_range_of (still q)) with
      | Raised e => Raised e
      | Returned time_range =>
          Returned (mk_statistics (length q) (Some (count_by Log.level q))
                      (Some (count_by Log.component q)) (Some time_range)
                      (Some (inject_Z (Z.of_nat (length q)) / Py.max time_range 1)%Q))
      end.
Proof.
  intros Hu. unfold get_log_statistics.
  destruct (look_unchanged q logs Hu) as (l1 & -> & [Hs1 Hq1]).
  destruct (negb (truthy_list q)); [reflexivity|].
  rewrite Hq1.
  destruct (counting_loop_unchanged Log.level q (seen l1) 0 ∅ Hs1) as (l2 & -> & [Hs2 Hq2]).
  rewrite Hq2.
  destruct (counting_loop_unchanged Log.component q (seen l2) 0 ∅ Hs2) as (l3 & -> & Hu3).
  destruct (time_range_of_unchanged q l3 Hu3) as (l4 & -> & Hu4).
  destruct (snd (time_range_of (still q))) as [time_range|e]; [|reflexivity].
  destruct (look_unchanged q l4 Hu4) as (l5 & -> & Hu5).
  destruct (look_unchanged q l5 Hu5) as (l6 & -> & _).
  reflexivity.
Qed.

(** On a queue whose stamps parse the time range is computed. *)
Lemma time_range_of_returns (q : list LogEntry) :
  well_stamped q ->
  exists time_range : Q,
    snd (time_range_of (still q)) = Returned time_range /\ is_time_range q time_range.
Proof.
  intros Hq. unfold time_range_of, is_time_range, still. cbn [look seen settled].
  destruct (Nat.leb_spec 2 (length q)) as [Hlen|Hlen].
  - destruct (head q) as [first|] eqn:Hh.
    2: { destruct q; [simpl in Hlen; lia|discriminate]. }
    destruct (last q) as [final|] eqn:Hl.
    2: { apply last_None in Hl. subst q. discriminate. }
    destruct (well_stamped_head q first Hq Hh) as [oldest Ho].
    destruct (well_stamped_last q final Hq Hl) as [newest Hn].
    rewrite Ho, Hn. eexists. split; [reflexivity|]. split; [lia|].
    intros _. exists first, final, oldest, newest. auto.
  - exists 0%Q. split; [reflexivity|]. split; [reflexivity|lia].
Qed.

(** The statistics of a queue whose stamps parse and that nobody changes
    during the call. *)
Lemma get_log_statistics_returns (q : list LogEntry) (logs : Live) :
  unchanged q logs ->
  well_stamped q ->
  exists st : Statistics,
    get_log_statistics logs = Returned st /\
    total_messages st = length q /\
    (q = [] -> st = mk_statistics 0 None None None None) /\
    (q <> [] ->
       exists levels components : gmap string nat,
         level_distribution st = Some levels /\
         component_distribution st = Some components /\
         sum_values levels = total_messages st /\
         total_messages st = sum_values components).
Proof.
  intros Hu Hst. rewrite (get_log_statistics_unchanged q logs Hu).
  destruct (time_range_of_returns _ Hst) as (tr & -> & _).
  destruct q as [|log q]; cbn [truthy_list negb].
  - eexists. split; [reflexivity|]. split; [reflexivity|].
    split; [reflexivity|]. intros H. destruct H. reflexivity.
  - eexists. split; [reflexivity|]. split; [reflexivity|].
    split; [discriminate|]. intros _.
    exists (count_by Log.level (log :: q)), (count_by Log.component (log :: q)).
    rewrite !sum_values_count_by. cbn [total_messages level_distribution
      component_distribution]. auto.
Qed.

Lemma py_max_ge_right (a b : Q) : (b <= Py.max a b)%Q.
Proof.
  unfold Py.max. destruct (Qlt_le_dec a b) as [Hlt|Hle]; [apply Qle_refl|exact Hle].
Qed.

(** The rate of a queue that is not empty, whose stamps parse and that
    nobody changes during the call. *)
Lemma get_log_statistics_rate (q : list LogEntry) (logs : Live) :
  unchanged q logs ->
  q <> [] ->
  well_stamped q ->
  exists (st : Statistics) (time_range rate : Q),
    get_log_statistics logs = Returned st /\
    total_messages st = length q /\
    time_range_seconds st = Some time_range /\
    messages_per_second st = Some rate /\
    is_time_range q time_range /\
    rate = (inject_Z (Z.of_nat (total_messages st)) / Py.max time_range 1)%Q /\
    (1 <= Py.max time_range 1)%Q.
Proof.
  intros Hu Hne Hst. rewrite (get_log_statistics_unchanged q logs Hu).
  destruct (time_range_of_returns _ Hst) as (tr & -> & Htr).
  destruct q as [|log q]; [congruence|].
  cbn [truthy_list negb].
  exists (mk_statistics (length (log :: q))
            (Some (count_by Log.level (log :: q)))
            (Some (count_by Log.component (log :: q)))
            (Some tr)
            (Some (inject_Z (Z.of_nat (length (log :: q))) / Py.max tr 1)%Q)),
         tr, (inject_Z (Z.of_nat (length (log :: q))) / Py.max tr 1)%Q.
  repeat split; try exact (proj1 Htr); try exact (proj2 Htr).
  apply py_max_ge_right.
Qed.

End Statistics.

(** ** Time stamps *)

Section Stamps.

Lemma digit_val_digit (d : Z) : 0 <= d <= 9 -> digit_val (digit d) = d.
Proof.
  intros H.
  assert (E : d = 0 \/ d = 1 \/ d = 2 \/ d = 3 \/ d = 4 \/
              d = 5 \/ d = 6 \/ d = 7 \/ d = 8 \/ d = 9) by lia.
  repeat (destruct E as [->|E]; [reflexivity|]). subst d. reflexivity.
Qed.

Lemma is_digit_digit (d : Z) : 0 <= d <= 9 -> is_digit (digit d) = true.
Proof.
  intros H. unfold is_digit. rewrite digit_val_digit by exact H.
  apply andb_true_intro. split; [apply Z.leb_le|apply Z.leb_le]; lia.
Qed.

Lemma length_zpad (w : nat) (n : Z) : length (zpad w n) = w.
Proof. induction w as [|w IH]; simpl; [reflexivity|]. rewrite IH. reflexivity. Qed.

(** Reading back the [w] digits that [zpad] wrote. *)
Lemma digits_acc_zpad (w : nat) (n acc : Z) (rest : list ascii) :
  0 <= n ->
  digits_acc w acc (zpad w n ++ rest) = Some (acc * 10 ^ Z.of_nat w + n mod 10 ^ Z.of_nat w, rest).
Proof.
  intros Hn. revert acc. induction w as [|w IH]; intros acc.
  - simpl. rewrite Z.mod_1_r. f_equal. f_equal. lia.
  - cbn [zpad app digits_acc].
    assert (Hd : 0 <= (n / 10 ^ Z.of_nat w) mod 10 <= 9)
      by (pose proof (Z.mod_pos_bound (n / 10 ^ Z.of_nat w) 10); lia).
    rewrite is_digit_digit, digit_val_digit by exact Hd.
    rewrite IH. f_equal. f_equal.
    rewrite Nat2Z.inj_succ, Z.pow_succ_r by lia.
    assert (Hp : 0 < 10 ^ Z.of_nat w) by (apply Z.pow_pos_nonneg; lia).
    rewrite (Z.mul_comm 10), Z.rem_mul_r by lia. lia.
Qed.

Lemma digits_zpad (w : nat) (n : Z) (rest : list ascii) :
  0 <= n < 10 ^ Z.of_nat w ->
  digits w (zpad w n ++ rest) = Some (n, rest).
Proof.
  intros H. unfold digits. rewrite digits_acc_zpad by lia.
  rewrite Z.mod_small by lia. reflexivity.
Qed.

Lemma days_in_month_bounds (y m : Z) : 28 <= days_in_month y m <= 31.
Proof.
  unfold days_in_month.
  destruct (m =? 2); [destruct (is_leap y); lia|].
  destruct ((m =? 4) || (m =? 6) || (m =? 9) || (m =? 11)); lia.
Qed.

Lemma valid_ranges (d : datetime) :
  valid d = true ->
  1 <= year d <= 9999 /\ 1 <= month d <= 12 /\
  1 <= day d <= days_in_month (year d) (month d) /\
  0 <= hour d < 24 /\ 0 <= minute d < 60 /\ 0 <= second d < 60 /\
  0 <= microsecond d < 1000000.
Proof.
  unfold valid. intros H.
  repeat (apply andb_prop in H; destruct H as [H ?]).
  repeat match goal with
         | h : (_ <=? _) = true |- _ => apply Z.leb_le in h
         | h : (_ <? _) = true |- _ => apply Z.ltb_lt in h
         end.
  lia.
Qed.

Lemma ranges_valid (d : datetime) :
  1 <= year d <= 9999 -> 1 <= month d <= 12 ->
  1 <= day d <= days_in_month (year d) (month d) ->
  0 <= hour d < 24 -> 0 <= minute d < 60 -> 0 <= second d < 60 ->
  0 <= microsecond d < 1000000 ->
  valid d = true.
Proof.
  intros. unfold valid.
  repeat (apply andb_true_intro; split);
    first [apply Z.leb_le; lia | apply Z.ltb_lt; lia].
Qed.

Lemma valid_truncate_ms (d : datetime) : valid d = true -> valid (truncate_ms d) = true.
Proof.
  intros H. apply valid_ranges in H.
  apply ranges_valid; simpl; try lia.
  pose proof (Z.mul_div_le (microsecond d) 1000).
  pose proof (Z.div_pos (microsecond d) 1000). lia.
Qed.

(** The characters of a stored stamp: the 23 first of the 26 that
    [strftime] writes. *)
Lemma make_timestamp_chars (d : datetime) :
  list_ascii_of_string (make_timestamp d) =
  (zpad 4 (year d) ++ "-"%char :: zpad 2 (month d) ++ "-"%char ::
   zpad 2 (day d) ++ " "%char :: zpad 2 (hour d) ++ ":"%char ::
   zpad 2 (minute d) ++ ":"%char :: zpad 2 (second d) ++ "."%char ::
   zpad 3 (microsecond d / 1000))%list.
Proof.
  unfold make_timestamp, str_slice_to, strftime.
  rewrite !list_ascii_of_string_of_list_ascii.
  cbn [zpad app]. unfold slice_to. cbn [length take].
  change (Z.to_nat _) with 23%nat. cbn [take].
  repeat (f_equal; try (rewrite Z.div_div by lia; reflexivity)).
Qed.

(** Parsing a stored stamp gives back the reading of the clock with its
    microseconds cut down to whole milliseconds. *)
Lemma strptime_make_timestamp (d : datetime) :
  valid d = true -> strptime (make_timestamp d) = Some (truncate_ms d).
Proof.
  intros Hv. pose proof (valid_truncate_ms d Hv) as Hv'.
  apply valid_ranges in Hv.
  pose proof (days_in_month_bounds (year d) (month d)).
  unfold strptime. rewrite make_timestamp_chars.
  rewrite digits_zpad by (simpl; lia). cbn [mbind option_bind expect Ascii.eqb Bool.eqb].
  rewrite digits_zpad by (simpl; lia). cbn [mbind option_bind expect Ascii.eqb Bool.eqb].
  rewrite digits_zpad by (simpl; lia). cbn [mbind option_bind expect Ascii.eqb Bool.eqb].
  rewrite digits_zpad by (simpl; lia). cbn [mbind option_bind expect Ascii.eqb Bool.eqb].
  rewrite digits_zpad by (simpl; lia). cbn [mbind option_bind expect Ascii.eqb Bool.eqb].
  rewrite digits_zpad by (simpl; lia). cbn [mbind option_bind expect Ascii.eqb Bool.eqb].
  rewrite length_zpad. cbn [Nat.leb andb].
  rewrite <- (app_nil_r (zpad 3 _)).
  rewrite digits_zpad.
  - cbn [mbind option_bind].
    change (10 ^ Z.of_nat (6 - 3)) with 1000.
    fold (truncate_ms d). rewrite Hv'. reflexivity.
  - pose proof (Z.div_pos (microsecond d) 1000).
    assert (microsecond d / 1000 < 1000) by (apply Z.div_lt_upper_bound; lia).
    simpl. lia.
Qed.

End Stamps.

(** ** The queues the logger builds *)

Section Invariant.

Lemma upper_char_idem (c : ascii) : upper_char (upper_char c) = upper_char c.
Proof. destruct c as [[] [] [] [] [] [] [] []]; reflexivity. Qed.

Lemma upper_idem (s : string) : upper (upper s) = upper s.
Proof.
  induction s as [|c s IH]; simpl; [reflexivity|].
  rewrite upper_char_idem, IH. reflexivity.
Qed.

Lemma enqueue_Forall (P : LogEntry -> Prop) (e : LogEntry) (q : list LogEntry) :
  P e -> Forall P q -> Forall P (enqueue e q).
Proof.
  intros He Hq. unfold enqueue.
  assert (Hall : Forall P (q ++ [e])) by (apply Forall_app; split; [exact Hq|repeat constructor; exact He]).
  destruct (CAPACITY <? length (q ++ [e]))%nat; [|exact Hall].
  destruct (q ++ [e])%list as [|x r]; simpl; [constructor|].
  inversion Hall; assumption.
Qed.

Lemma enqueue_length (e : LogEntry) (q : list LogEntry) :
  (length q <= CAPACITY)%nat -> (length (enqueue e q) <= CAPACITY)%nat.
Proof.
  intros H. unfold enqueue.
  destruct (Nat.ltb_spec CAPACITY (length (q ++ [e]))) as [Hlt|Hle]; [|exact Hle].
  rewrite length_app in Hlt. simpl in Hlt.
  destruct (q ++ [e])%list as [|x r] eqn:E; simpl; [lia|].
  apply (f_equal length) in E. rewrite length_app in E. simpl in E. lia.
Qed.

Lemma enqueue_queue_ok env lvl msg comp func q :
  queue_ok q ->
  queue_ok (enqueue (make_entry env lvl msg comp func) q).
Proof.
  intros (Hup & Hst & Hlen). repeat split.
  - apply enqueue_Forall; [|exact Hup]. simpl. apply upper_idem.
  - apply enqueue_Forall; [|exact Hst]. simpl.
    rewrite strptime_make_timestamp by apply now_valid. eexists; reflexivity.
  - apply enqueue_length, Hlen.
Qed.

Lemma configure_enhanced_self env config w :
  self (fst (configure_enhanced env config w)) = self w.
Proof.
  unfold configure_enhanced.
  destruct (truthy_handle _ && _), (configure_fault env), (configure_print_fault env),
    (configure_handler_print_fault env); reflexivity.
Qed.

Lemma export_logs_to_file_self env path format w :
  self (fst (export_logs_to_file env path format w)) = self w.
Proof.
  unfold export_logs_to_file.
  destruct (if String.eqb (lower format) "json" then _ else _) as [fs [u|e]];
    destruct (export_print_fault env), (export_handler_print_fault env); reflexivity.
Qed.

Lemma enable_real_time_monitoring_self env cb interval w :
  self (fst (enable_real_time_monitoring env cb interval w)) = self w.
Proof.
  unfold enable_real_time_monitoring. destruct (enable_print_fault env); reflexivity.
Qed.

Lemma ingest_queue m env msg comp func w :
  _local_queue (self (fst (ingest m env msg comp func w))) =
  enqueue (make_entry env (method_name m) msg comp func) (_local_queue (self w)).
Proof. destruct m; apply log_with_component_queue. Qed.

Lemma step_queue_ok (ev : Event) (w : World) :
  queue_ok (_local_queue (self w)) ->
  queue_ok (_local_queue (self (step ev w))).
Proof.
  intros Hw. destruct ev as [c|i env]; simpl.
  - destruct c; simpl;
      rewrite ?configure_enhanced_self, ?export_logs_to_file_self,
        ?enable_real_time_monitoring_self; try exact Hw.
    + rewrite ingest_queue. apply enqueue_queue_ok; assumption.
    + repeat split; [constructor|constructor|simpl; lia].
  - destruct (pollers w !! i) as [p|]; [|exact Hw].
    destruct (monitoring_iteration _ _ _ _). exact Hw.
Qed.

Lemma run_queue_ok (evs : list Event) (w : World) :
  queue_ok (_local_queue (self w)) ->
  queue_ok (_local_queue (self (run evs w))).
Proof.
  revert w. induction evs as [|ev evs IH]; intros w Hw; simpl.
  - exact Hw.
  - apply IH, step_queue_ok; assumption.
Qed.

Lemma fresh_queue_ok app proc ienv :
  queue_ok (_local_queue (self (fresh_world app proc ienv))).
Proof. repeat split; [constructor|constructor|simpl; lia]. Qed.

(** Whatever happened in the process, the queue of the logger has
    upper-case levels, stamps that parse, and at most [CAPACITY] entries. *)
Lemma history_queue_ok app proc ienv (history : list Event) :
  queue_ok (_local_queue (self (history_world app proc ienv history))).
Proof. apply run_queue_ok, fresh_queue_ok. Qed.

(** X2.  Whatever happened in the process (ingestion calls, clears,
    exports, queries, monitor iterations, in any order), the queue of the
    logger never holds more than 1000 entries. *)
Theorem history_capacity_bound (application_name process_name : string)
    (ienv : InitEnv) (history : list Event) :
  (length (_local_queue (self (history_world application_name process_name ienv history)))
   <= 1000)%nat.
Proof.
  destruct (history_queue_ok application_name process_name ienv history) as (_ & _ & H).
  exact H.
Qed.

End Invariant.

(** ** The views of a queue the logger built *)

Section Views.

(** C2.  Whatever happened in the process before, [get_local_logs
    component level limit] with a positive [limit] returns the last
    [limit] elements, in the order of insertion, of the entries of the
    queue whose component is [component] (when that is not empty) and
    whose level is [level] up to the case of the letters (when that is
    not empty); when no entry matches it returns the empty list. *)
Theorem get_local_logs_filter_tail (application_name process_name : string)
    (ienv : InitEnv) (history : list Event) (component level : string) (limit : Z) :
  0 < limit ->
  let logger := self (history_world application_name process_name ienv history) in
  let expected := filter (matches_filters component level) (_local_queue logger) in
  get_local_logs logger component level limit = most_recent (Z.to_nat limit) expected /\
  (expected = [] -> get_local_logs logger component level limit = []).
Proof.
  intros Hlimit logger expected.
  assert (E : get_local_logs logger component level limit =
              most_recent (Z.to_nat limit) expected).
  { apply get_local_logs_on_upper_levels; [exact Hlimit|].
    apply (history_queue_ok application_name process_name ienv history). }
  split; [exact E|]. intros Hnil. rewrite E, Hnil. reflexivity.
Qed.

(** C3, at the failing input.  [get_log_statistics] keeps the queue
    itself, not a copy, and reads it after it has released the lock.
    Here another thread appends one entry to the queue of the three
    sample calls when the two counting loops are over: the method returns
    a [dict] whose two distributions sum to 3 while its [total_messages]
    is 4. *)
Theorem statistics_sums_disagree :
  exists (st : Statistics) (levels components : gmap string nat),
    get_log_statistics appended_after_counting = Returned st /\
    level_distribution st = Some levels /\
    component_distribution st = Some components /\
    sum_values levels = 3%nat /\
    sum_values components = 3%nat /\
    total_messages st = 4%nat.
Proof.
  unfold get_log_statistics, appended_after_counting.
  eexists _, _, _. split; [vm_compute; reflexivity|].
  repeat split; vm_compute; reflexivity.
Qed.

(** The same defect makes the method raise: when another thread clears
    the queue between the test [len(logs) >= 2] and [logs[0]], the
    [IndexError] leaves the method. *)
Example statistics_raise_after_clear :
  get_log_statistics cleared_before_first = Raised index_error.
Proof. vm_compute. reflexivity. Qed.

(** C6, at the failing input.  Here the other thread appends its entry
    between the two [len(logs)] of the returned [dict]: with three
    entries counted in [total_messages] and a time range of two and a
    half seconds, [messages_per_second] is four entries over that range,
    not [total_messages] over it. *)
Theorem statistics_rate_disagrees :
  exists (st : Statistics) (time_range rate : Q),
    get_log_statistics appended_before_rate = Returned st /\
    total_messages st = 3%nat /\
    time_range_seconds st = Some time_range /\
    (time_range == 5 # 2)%Q /\
    messages_per_second st = Some rate /\
    (rate == 4 / Py.max time_range 1)%Q /\
    ~ (rate == inject_Z (Z.of_nat (total_messages st)) / Py.max time_range 1)%Q.
Proof.
  eexists _, _, _. split; [vm_compute; reflexivity|].
  split; [reflexivity|]. split; [reflexivity|]. split; [reflexivity|].
  split; [reflexivity|]. split; [reflexivity|].
  intros H. vm_compute in H. discriminate H.
Qed.

Lemma last_enqueue (e : LogEntry) (q : list LogEntry) : last (enqueue e q) = Some e.
Proof.
  unfold enqueue.
  destruct (Nat.ltb_spec CAPACITY (length (q ++ [e]))) as [Hlt|_]; [|apply last_snoc].
  destruct q as [|x q]; simpl.
  - simpl in Hlt. unfold CAPACITY in Hlt. lia.
  - apply last_snoc.
Qed.


End Views.

(** ** The ingestion calls and their failures *)

Section IngestionCalls.

Lemma output_to_python_logging_ok level message out :
  snd (_output_to_python_logging None level message out) = Returned tt.
Proof.
  unfold _output_to_python_logging.
  repeat (match goal with |- context [if ?b then _ else _] => destruct b end);
    reflexivity.
Qed.

(** A failure of the native block never reaches the caller, and neither
    does a failure of the first [print], as long as the [print] of the
    handler works. *)
Lemma log_with_component_returns env level message component function w :
  print_fault env = None \/ handler_print_fault env = None ->
  snd (_log_with_component env level message component function w) = Returned tt.
Proof.
  intros H. unfold _log_with_component.
  destruct (_output_to_python_logging _ _ _ _) as [out [u|e]] eqn:E;
    [reflexivity|].
  destruct H as [H|H].
  - rewrite H in E. pose proof (output_to_python_logging_ok level
      (Log.formatted_message (make_entry env level message component function))
      (console w)) as Hok.
    simpl in E, Hok. rewrite E in Hok. discriminate.
  - rewrite H. reflexivity.
Qed.

(** X1.  Each of the six ingestion calls returns normally, whatever the
    native block does, as long as the [print] of the entry or the [print]
    of the handler works. *)
Theorem ingest_returns (m : Method) (env : RecordEnv)
    (message component function : string) (w : World) :
  print_fault env = None \/ handler_print_fault env = None ->
  snd (ingest m env message component function w) = Returned tt.
Proof. intros H. destruct m; apply log_with_component_returns, H. Qed.

(** When both [print]s fail, the exception of the second one leaves the
    ingestion call. *)
Lemma ingest_raises m env message component function w e1 e2 :
  print_fault env = Some e1 -> handler_print_fault env = Some e2 ->
  snd (ingest m env message component function w) = Raised e2.
Proof.
  intros H1 H2. destruct m; unfold ingest, trace, debug, info, warn, error, critical,
    _log_with_component, _output_to_python_logging; simpl; rewrite H1; simpl;
    rewrite H2; reflexivity.
Qed.

(** C4, at the failing input.  With a closed console, [info("started")]
    on a fresh logger appends its entry and then raises the [ValueError]
    of the [print] in its own handler. *)
Theorem info_raises_on_closed_console :
  let env := dead_console (mk_datetime 2024 3 9 7 5 1 123456) eq_refl in
  let result := info env "started" "Python" "" sample_world in
  snd result = Raised closed_stdout /\
  length (_local_queue (self (fst result))) = 1%nat.
Proof. split; reflexivity. Qed.

End IngestionCalls.

(** ** Export *)

Section Exporting.

Lemma write_file_open_fault env path data fs e :
  open_fault env = Some e -> write_file env path data fs = (fs, Raised e).
Proof. intros H. unfold write_file. rewrite H. reflexivity. Qed.

Lemma export_files env path format w :
  files (fst (export_logs_to_file env path format w)) =
  fst (if String.eqb (lower format) "json" then
         write_file env path (JsonDump (_local_queue (self w))) (files w)
       else if String.eqb (lower format) "csv" then
         (if truthy_list (_local_queue (self w))
          then write_file env path (CsvDump entry_keys (_local_queue (self w))) (files w)
          else (files w, Returned tt))
       else if String.eqb (lower format) "txt" then
         write_file env path (Text (txt_export (_local_queue (self w)))) (files w)
       else (files w, Returned tt)).
Proof.
  unfold export_logs_to_file.
  destruct (if String.eqb (lower format) "json" then _ else _) as [fs [u|e]];
    destruct (export_print_fault env), (export_handler_print_fault env); reflexivity.
Qed.

Lemma export_returns env path format w :
  export_handler_print_fault env = None ->
  snd (export_logs_to_file env path format w) = Returned tt.
Proof.
  intros H. unfold export_logs_to_file. rewrite H.
  destruct (if String.eqb (lower format) "json" then _ else _) as [fs [u|e]];
    destruct (export_print_fault env); reflexivity.
Qed.

(** C5, counterexample.  The contract for a failing export does not hold
    where the destination cannot be opened: the exception of [open] is
    caught and printed, and the call ends as a successful export does, so
    no failure kind reaches the caller. *)
Lemma failed_open_not_handed_to_caller :
  ~ failing_export_contract unwritable "/proc/out.json" "json" sample_logged.
Proof.
  unfold failing_export_contract. intros H.
  destruct H as (_ & [e He] & _); [right; eexists; reflexivity|].
  vm_compute in He. discriminate He.
Qed.

(** An export in a format that is not one of the three writes nothing
    and prints the line of a success: the chain of [elif] has no [else]. *)
Example unsupported_format_prints_success :
  let env := mk_export_env None None None None in
  let result := export_logs_to_file env "out.xml" "xml" sample_logged in
  snd result = Returned tt /\
  files (fst result) = files sample_logged /\
  printed sample_logged (fst result) = ["Exported 3 log messages to out.xml"].
Proof. vm_compute. repeat split. Qed.

(** What the export of the counterexample does: it returns [None] as a
    successful export does, changes no file and prints the failure. *)
Example failed_open_returns_none :
  let result := export_logs_to_file unwritable "/proc/out.json" "json" sample_logged in
  snd result = Returned tt /\
  files (fst result) = files sample_logged /\
  printed sample_logged (fst result) =
    ["Error exporting logs: [Errno 13] Permission denied: '/proc/out.json'"].
Proof. vm_compute. repeat split. Qed.

(** C5, as the code has it.  An export never changes the instance (so
    never its queue).  When the format is not supported or the
    destination cannot be opened, no file is changed.  A failure is not
    handed to the caller: the call returns [None] whenever the [print] of
    its handler works, after a failure as after a success, so that only a
    failure of that [print] leaves the call as an exception.  When
    opening and writing work, the destination holds the complete document
    of the format (nothing is written for an unsupported format or for
    the [csv] of an empty queue), and the other files are as before.  A
    failed [open] is made known by one printed line, which carries the
    text of the exception. *)
Theorem export_outcomes (env : ExportEnv) (file_path format : string) (w : World) :
  let w' := fst (export_logs_to_file env file_path format w) in
  let r := snd (export_logs_to_file env file_path format w) in
  self w' = self w /\
  (export_fails env format -> files w' = files w) /\
  (export_handler_print_fault env = None -> r = Returned tt) /\
  (open_fault env = None -> write_fault env = None ->
     files w' =
       match export_document format (_local_queue (self w)) with
       | Some document => <[file_path := document]> (files w)
       | None => files w
       end) /\
  (forall e, open_fault env = Some e ->
     is_Some (export_document format (_local_queue (self w))) ->
     export_handler_print_fault env = None ->
     printed w w' = ["Error exporting logs: " ++ exc_str e]).
Proof.
  intros w' r. split; [apply export_logs_to_file_self|].
  split; [|split; [apply export_returns|split]].
  3: { intros e He [document Hdoc] Hh. unfold w', printed, export_logs_to_file.
       unfold export_document in Hdoc.
       rewrite !(write_file_open_fault env _ _ _ e He), Hh.
       destruct (String.eqb (lower format) "json");
         [simpl; apply drop_app_length|].
       destruct (String.eqb (lower format) "csv").
       { destruct (truthy_list (_local_queue (self w))); [|discriminate].
         simpl. apply drop_app_length. }
       destruct (String.eqb (lower format) "txt"); [|discriminate].
       simpl. apply drop_app_length. }
  - intros Hfail. unfold w'. rewrite export_files.
    destruct Hfail as [Hfmt|[e He]].
    + unfold supported_format in Hfmt.
      destruct (String.eqb (lower format) "json"); [discriminate|].
      destruct (String.eqb (lower format) "csv"); [discriminate|].
      destruct (String.eqb (lower format) "txt"); [discriminate|]. reflexivity.
    + rewrite !(write_file_open_fault env _ _ _ e He).
      repeat (match goal with |- context [if ?b then _ else _] => destruct b end);
        reflexivity.
  - intros Ho Hw. unfold w'. rewrite export_files.
    unfold export_document, write_file. rewrite Ho, Hw.
    repeat (match goal with |- context [if ?b then _ else _] => destruct b end);
      reflexivity.
Qed.

End Exporting.

(** ** Monitoring *)

Section Monitoring.

Lemma log_with_component_pollers env level message component function w :
  pollers (fst (_log_with_component env level message component function w)) = pollers w.
Proof.
  unfold _log_with_component.
  destruct (_output_to_python_logging _ _ _ _) as [out [u|e]]; simpl; [reflexivity|].
  destruct (print _ _ _) as [out' [u|e']]; reflexivity.
Qed.

Lemma configure_enhanced_pollers env config w :
  pollers (fst (configure_enhanced env config w)) = pollers w.
Proof.
  unfold configure_enhanced.
  destruct (truthy_handle _ && _), (configure_fault env), (configure_print_fault env),
    (configure_handler_print_fault env); reflexivity.
Qed.

Lemma export_logs_to_file_pollers env path format w :
  pollers (fst (export_logs_to_file env path format w)) = pollers w.
Proof.
  unfold export_logs_to_file.
  destruct (if String.eqb (lower format) "json" then _ else _) as [fs [u|e]];
    destruct (export_print_fault env), (export_handler_print_fault env); reflexivity.
Qed.

Lemma enable_pollers env cb interval w :
  pollers (fst (enable_real_time_monitoring env cb interval w)) =
  (pollers w ++ [mk_poller cb interval (thread_start_time env) Running []])%list.
Proof.
  unfold enable_real_time_monitoring. destruct (enable_print_fault env); reflexivity.
Qed.

(** A call of a method only ever adds monitor threads, at the end. *)
Lemma api_step_pollers (c : ApiCall) (w : World) :
  exists extra : list Poller,
    pollers (api_step c w) = (pollers w ++ extra)%list /\
    Forall (fun p => is_running p = true) extra.
Proof.
  assert (Hsame : forall w' : World, pollers w' = pollers w ->
            exists extra : list Poller,
              pollers w' = (pollers w ++ extra)%list /\
              Forall (fun p => is_running p = true) extra).
  { intros w' E. exists []. rewrite app_nil_r. split; [exact E|constructor]. }
  destruct c; simpl; try (apply Hsame; reflexivity).
  - apply Hsame. destruct m; apply log_with_component_pollers.
  - apply Hsame, configure_enhanced_pollers.
  - apply Hsame, export_logs_to_file_pollers.
  - eexists. rewrite enable_pollers. split; [reflexivity|].
    repeat constructor.
Qed.

(** C8, counterexample.  Two calls of [enable_real_time_monitoring] on
    the sample world leave two running monitor loops. *)
Lemma second_enable_starts_second_poller :
  ~ at_most_one_poller
      (run [Api (CallEnableRealTimeMonitoring sample_enable (Some 7%nat) 1);
            Api (CallEnableRealTimeMonitoring sample_enable (Some 7%nat) 1)]
           sample_world).
Proof. unfold at_most_one_poller. vm_compute. lia. Qed.

(** C8, as the code has it.  Every call of [enable_real_time_monitoring]
    starts one more monitor thread, whatever threads are already running:
    the count of running loops grows by one.  No method of the instance
    stops or removes a monitor thread: after any call the threads that
    existed are still there, unchanged, and at least as many loops are
    running. *)
Theorem enable_always_starts_a_poller (env : EnableEnv) (callback : option nat)
    (interval_seconds : Q) (w : World) :
  let w' := fst (enable_real_time_monitoring env callback interval_seconds w) in
  pollers w' =
    (pollers w ++ [mk_poller callback interval_seconds (thread_start_time env) Running []])%list /\
  running_pollers w' = S (running_pollers w) /\
  forall (c : ApiCall) (w0 : World),
    pollers w0 `prefix_of` pollers (api_step c w0) /\
    (running_pollers w0 <= running_pollers (api_step c w0))%nat.
Proof.
  intros w'. split; [apply enable_pollers|]. split.
  - unfold running_pollers, w'. rewrite enable_pollers, filter_app, length_app.
    simpl. lia.
  - intros c w0. destruct (api_step_pollers c w0) as (extra & E & _).
    unfold running_pollers. rewrite E. split.
    + exists extra. reflexivity.
    + rewrite filter_app, length_app. lia.
Qed.

Lemma finished_poller_step (ev : Event) (w : World) (i : nat) (p : Poller) :
  pollers w !! i = Some p -> status p = Finished ->
  pollers (step ev w) !! i = Some p.
Proof.
  intros Hp Hfin. destruct ev as [c|j env]; simpl.
  - destruct (api_step_pollers c w) as (extra & -> & _).
    apply lookup_app_l_Some, Hp.
  - destruct (pollers w !! j) as [q|] eqn:Hq; [|exact Hp].
    destruct (monitoring_iteration env (_local_queue (self w)) q (console w))
      as [q' out] eqn:Hit. simpl.
    destruct (decide (j = i)) as [->|Hne].
    + rewrite Hp in Hq. injection Hq as <-.
      unfold monitoring_iteration in Hit. rewrite Hfin in Hit.
      injection Hit as <- <-.
      rewrite list_lookup_insert_eq; [reflexivity|].
      apply lookup_lt_Some in Hp. exact Hp.
    + rewrite list_lookup_insert_ne by exact Hne. exact Hp.
Qed.

Lemma finished_poller_run (evs : list Event) (w : World) (i : nat) (p : Poller) :
  pollers w !! i = Some p -> status p = Finished ->
  pollers (run evs w) !! i = Some p.
Proof.
  revert w. induction evs as [|ev evs IH]; intros w Hp Hfin; simpl; [exact Hp|].
  apply IH; [apply finished_poller_step; assumption|exact Hfin].
Qed.

Lemma snoc_not_self {A} (l : list A) (x : A) : l <> (l ++ [x])%list.
Proof.
  intros E. apply (f_equal length) in E. rewrite length_app in E. simpl in E. lia.
Qed.

(** C10.  If, in an iteration of its loop, a monitor thread called its
    callback and the callback raised, then the thread is over after that
    iteration: whatever happens later in the process (calls of methods,
    iterations of any thread), its record is the same, so its callback is
    never called again.  The iteration leaves the instance, the files and
    the native library as they were and raises nothing to a caller: all
    it adds to the console is the line of the handler, when its [print]
    works. *)
Theorem callback_exception_ends_monitoring (w : World) (i : nat) (env : TickEnv)
    (p : Poller) (e : PyExc) (later : list Event) :
  pollers w !! i = Some p ->
  callback_fault env = Some e ->
  called_back p (step (Tick i env) w) i ->
  let w1 := step (Tick i env) w in
  exists p1 : Poller,
    pollers w1 !! i = Some p1 /\
    status p1 = Finished /\
    pollers (run later w1) !! i = Some p1 /\
    self w1 = self w /\ files w1 = files w /\ native_calls w1 = native_calls w /\
    printed w w1 =
      match loop_print_fault env with
      | None => ["Error in monitoring loop: " ++ exc_str e]
      | Some _ => []
      end.
Proof.
  intros Hp Hcb (p1 & msgs & Hp1 & Hdel) w1. exists p1.
  assert (Hi : (i < length (pollers w))%nat) by (apply lookup_lt_Some in Hp; exact Hp).
  unfold w1 in *. clear w1. simpl in *. rewrite Hp in *.
  destruct (monitoring_iteration env (_local_queue (self w)) p (console w))
    as [p' out] eqn:Hit.
  simpl in *. rewrite list_lookup_insert_eq in Hp1 by exact Hi.
  injection Hp1 as ->.
  assert (Hfin : status p1 = Finished /\
                 printed w (set_console (set_pollers w (<[i:=p1]> (pollers w))) out) =
                 match loop_print_fault env with
                 | None => ["Error in monitoring loop: " ++ exc_str e]
                 | Some _ => []
                 end).
  { unfold monitoring_iteration in Hit.
    destruct (status p) eqn:Hs.
    2: { injection Hit as <- <-. destruct (snoc_not_self _ _ Hdel). }
    destruct (Qle_bool _ _).
    2: { injection Hit as <- <-. destruct (snoc_not_self _ _ Hdel). }
    destruct (new_messages_since _ _ _) as [new_messages|e'].
    2: { unfold loop_failed in Hit. injection Hit as <- <-.
         destruct (snoc_not_self _ _ Hdel). }
    destruct (truthy_list new_messages && _).
    2: { injection Hit as <- <-. destruct (snoc_not_self _ _ Hdel). }
    rewrite Hcb in Hit. unfold loop_failed in Hit. injection Hit as <- <-.
    split; [reflexivity|]. unfold printed, print. simpl.
    destruct (loop_print_fault env); simpl.
    - rewrite drop_all. reflexivity.
    - apply drop_app_length. }
  destruct Hfin as [Hfin Hprinted].
  split; [apply list_lookup_insert_eq, Hi|].
  split; [exact Hfin|].
  split; [apply finished_poller_run; [apply list_lookup_insert_eq, Hi|exact Hfin]|].
  repeat split. exact Hprinted.
Qed.

End Monitoring.

(** ** The theorems at the sample data *)

Section Samples.

Lemma sample_logged_nonempty : _local_queue (self sample_logged) <> [].
Proof.
  assert (E : _local_queue (self sample_logged) = map entry_of sample_calls)
    by (vm_compute; reflexivity).
  rewrite E. discriminate.
Qed.

Lemma get_local_logs_filter_tail_witness :
  0 < 1 /\
  let expected := filter (matches_filters "Net" "info") (_local_queue (self sample_logged)) in
  get_local_logs (self sample_logged) "Net" "info" 1 = most_recent (Z.to_nat 1) expected /\
  (expected = [] -> get_local_logs (self sample_logged) "Net" "info" 1 = []).
Proof.
  assert (H1 : 0 < 1) by lia.
  split; [exact H1|].
  exact (get_local_logs_filter_tail "App" "" sample_init sample_history "Net" "info" 1 H1).
Defined.


Lemma ingest_returns_witness :
  let env := mk_record_env (mk_datetime 2024 3 9 7 5 1 123456) eq_refl
               (Some (Exc "OSError" "native library failed"))
               (Some closed_stdout) None in
  (print_fault env = None \/ handler_print_fault env = None) /\
  snd (ingest Critical env "started" "Core" "main" sample_world) = Returned tt.
Proof.
  intros env.
  assert (H : print_fault env = None \/ handler_print_fault env = None)
    by (right; reflexivity).
  split; [exact H|].
  exact (ingest_returns Critical env "started" "Core" "main" sample_world H).
Defined.

Lemma callback_exception_ends_monitoring_witness :
  let w1 := step (Tick 0 sample_failing_tick) sample_monitored in
  exists p1 : Poller,
    pollers w1 !! 0%nat = Some p1 /\
    status p1 = Finished /\
    pollers (run sample_later w1) !! 0%nat = Some p1 /\
    self w1 = self sample_monitored /\ files w1 = files sample_monitored /\
    native_calls w1 = native_calls sample_monitored /\
    printed sample_monitored w1 = ["Error in monitoring loop: observer failed"].
Proof.
  apply (callback_exception_ends_monitoring sample_monitored 0 sample_failing_tick
           sample_poller (Exc "RuntimeError" "observer failed") sample_later).
  - reflexivity.
  - reflexivity.
  - eexists _, _. split; reflexivity.
Defined.

End Samples.

(** ** More on queries and clearing *)

Section QueryMore.

Lemma Forall_filter_self {A} (P : A -> Prop) `{!forall x, Decision (P x)} (l : list A) :
  Forall P (filter P l).
Proof.
  apply Forall_forall. intros x Hx. apply list_elem_of_filter in Hx. tauto.
Qed.

Lemma slice_from_sublist {A} (z : Z) (l : list A) : slice_from z l `sublist_of` l.
Proof. unfold slice_from. apply sublist_drop. Qed.

Lemma truthy_str_upper (s : string) : truthy_str (upper s) = truthy_str s.
Proof. destruct s; reflexivity. Qed.

Lemma passes_upper (component level : string) (log : LogEntry) :
  passes component (upper level) log <-> passes component level log.
Proof.
  unfold passes. rewrite upper_idem.
  assert (E : upper level = "" <-> level = "").
  { rewrite <- !truthy_str_false, truthy_str_upper. tauto. }
  tauto.
Qed.

(** X3.  The result of [get_local_logs] is a sublist of the queue (same
    entries, same order), every entry of it passes the two filters, and
    with a positive [limit] it has at most [limit] entries. *)
Theorem get_local_logs_bounded (self : ASFMLoggerPython)
    (component level : string) (limit : Z) :
  get_local_logs self component level limit `sublist_of` _local_queue self /\
  Forall (passes component level) (get_local_logs self component level limit) /\
  (0 < limit ->
   (length (get_local_logs self component level limit) <= Z.to_nat limit)%nat).
Proof.
  rewrite get_local_logs_slice. split; [|split].
  - etransitivity; [apply slice_from_sublist|apply sublist_filter].
  - unfold slice_from. apply Forall_drop, Forall_filter_self.
  - intros H. rewrite slice_from_neg_limit by exact H.
    rewrite length_most_recent. lia.
Qed.

(** X4.  The level filter of [get_local_logs] does not depend on the case
    of its letters: two filters with the same upper-case form select the
    same entries. *)
Theorem get_local_logs_level_case (self : ASFMLoggerPython)
    (component level level' : string) (limit : Z) :
  upper level = upper level' ->
  get_local_logs self component level limit =
  get_local_logs self component level' limit.
Proof.
  intros E. rewrite !get_local_logs_slice. f_equal.
  apply list_filter_iff. intros log.
  rewrite <- (passes_upper component level), <- (passes_upper component level'), E.
  tauto.
Qed.

Lemma get_local_logs_level_case_witness :
  upper "Error" = upper "ERROR" /\
  get_local_logs (self sample_logged) "Net" "Error" 10 =
  get_local_logs (self sample_logged) "Net" "ERROR" 10.
Proof.
  assert (H : upper "Error" = upper "ERROR") by reflexivity.
  split; [exact H|].
  exact (get_local_logs_level_case (self sample_logged) "Net" "Error" "ERROR" 10 H).
Defined.

Lemma enqueue_snoc (e : LogEntry) (q : list LogEntry) :
  exists q' : list LogEntry, enqueue e q = (q' ++ [e])%list.
Proof.
  unfold enqueue.
  destruct (Nat.ltb_spec CAPACITY (length (q ++ [e]))) as [Hlt|_]; [|eauto].
  destruct q as [|x q]; simpl.
  - simpl in Hlt. unfold CAPACITY in Hlt. lia.
  - eauto.
Qed.

Lemma slice_last_one {A} (l : list A) (x : A) : slice_from (-1) (l ++ [x]) = [x].
Proof.
  unfold slice_from. rewrite length_app. simpl.
  replace (Z.to_nat _) with (length l) by lia.
  apply drop_app_length.
Qed.

(** X5.  What was logged last is what a query returns first from the
    end: right after a call of one of the six methods,
    [get_local_logs(component, level, 1)] with the component and the
    level of the call (in any case), or with no filter at all, is the
    list of the one entry of that call. *)
Theorem logged_entry_is_most_recent (c : Ingestion) (w : World) (level : string) :
  upper level = upper (method_name (ing_method c)) ->
  let logger := self (fst (ingest_one c w)) in
  get_local_logs logger (ing_component c) level 1 = [entry_of c] /\
  get_local_logs logger "" "" 1 = [entry_of c].
Proof.
  intros Hl logger.
  assert (Hq : exists q', _local_queue logger = (q' ++ [entry_of c])%list).
  { unfold logger. rewrite ingest_one_queue. apply enqueue_snoc. }
  destruct Hq as [q' Hq].
  assert (Hpass : forall component lvl,
            passes component lvl (entry_of c) ->
            get_local_logs logger component lvl 1 = [entry_of c]).
  { intros component lvl Hp. rewrite get_local_logs_slice, Hq, filter_app.
    rewrite filter_cons, decide_True by exact Hp. simpl. apply slice_last_one. }
  split; apply Hpass; unfold passes; simpl.
  - split; [right; reflexivity|right]. symmetry. exact Hl.
  - tauto.
Qed.

Lemma logged_entry_is_most_recent_witness :
  upper "Info" = upper (method_name (ing_method sample_call)) /\
  let logger := self (fst (ingest_one sample_call sample_logged)) in
  get_local_logs logger (ing_component sample_call) "Info" 1 = [entry_of sample_call] /\
  get_local_logs logger "" "" 1 = [entry_of sample_call].
Proof.
  assert (H : upper "Info" = upper (method_name (ing_method sample_call)))
    by reflexivity.
  split; [exact H|].
  exact (logged_entry_is_most_recent sample_call sample_logged "Info" H).
Defined.

Lemma create_log_filter_passes (component level min_importance : string)
    (messages : list LogEntry) :
  create_log_filter component level min_importance messages =
  filter (passes component level) messages.
Proof.
  pose proof (get_local_logs_slice
                (mk_logger "" "" None false messages) component level
                (Z.of_nat (length messages) + 1)) as H.
  unfold get_local_logs in H. simpl in H. unfold create_log_filter.
  set (f := if truthy_str level then _ else _) in *.
  assert (Hlen : (length f <= length messages)%nat).
  { unfold f. destruct (truthy_str level), (truthy_str component);
      repeat (etransitivity; [apply length_filter|]); reflexivity. }
  assert (Hf : slice_from (- (Z.of_nat (length messages) + 1)) f = f).
  { unfold slice_from.
    destruct (Z.ltb_spec (- (Z.of_nat (length messages) + 1)) 0); [|lia].
    rewrite Z.max_r by lia. reflexivity. }
  assert (Hg : slice_from (- (Z.of_nat (length messages) + 1))
                 (filter (passes component level) messages) =
               filter (passes component level) messages).
  { unfold slice_from.
    destruct (Z.ltb_spec (- (Z.of_nat (length messages) + 1)) 0); [|lia].
    pose proof (length_filter (passes component level) messages).
    rewrite Z.max_r by lia. reflexivity. }
  rewrite Hg in H. rewrite <- H.
  destruct f; [reflexivity|]. symmetry. exact Hf.
Qed.

(** X6.  The function that [create_log_filter] returns selects exactly
    what the two filters of [get_local_logs] select: a query is a slice of
    the filtered queue.  The filter ignores [min_importance], and applying
    it twice is applying it once. *)
Theorem create_log_filter_agrees (self : ASFMLoggerPython)
    (component level min_importance : string) (limit : Z) :
  get_local_logs self component level limit =
    slice_from (- limit)
      (create_log_filter component level min_importance (_local_queue self)) /\
  (forall (other : string) (messages : list LogEntry),
     create_log_filter component level other messages =
     create_log_filter component level min_importance messages) /\
  (forall messages : list LogEntry,
     create_log_filter component level min_importance
       (create_log_filter component level min_importance messages) =
     create_log_filter component level min_importance messages).
Proof.
  split; [|split].
  - rewrite create_log_filter_passes. apply get_local_logs_slice.
  - intros other messages. rewrite !create_log_filter_passes. reflexivity.
  - intros messages. rewrite !create_log_filter_passes.
    apply list_filter_filter_l. tauto.
Qed.

End QueryMore.

(** ** More on queries of a queue the logger built *)

Section HistoryQueries.

(** X7.  The queue never holds more than 1000 entries, so whatever
    happened in the process before, [get_local_logs] without filters and
    with a limit of 1000 or more returns the whole queue. *)
Theorem get_local_logs_whole_queue (application_name process_name : string)
    (ienv : InitEnv) (history : list Event) (limit : Z) :
  1000 <= limit ->
  let logger := self (history_world application_name process_name ienv history) in
  get_local_logs logger "" "" limit = _local_queue logger.
Proof.
  intros Hlimit logger.
  destruct (history_queue_ok application_name process_name ienv history)
    as (_ & _ & Hlen).
  fold logger in Hlen. unfold CAPACITY in Hlen.
  rewrite get_local_logs_slice.
  rewrite filter_all by (intros x; unfold passes; tauto).
  unfold slice_from.
  destruct (Z.ltb_spec (- limit) 0); [|lia].
  rewrite Z.max_r by lia. reflexivity.
Qed.

Lemma get_local_logs_whole_queue_witness :
  1000 <= 1000 /\
  get_local_logs (self sample_logged) "" "" 1000 = _local_queue (self sample_logged).
Proof.
  assert (H : 1000 <= 1000) by lia.
  split; [exact H|].
  exact (get_local_logs_whole_queue "App" "" sample_init sample_history 1000 H).
Defined.

(** X8.  [clear_local_logs] empties the queue and nothing else: after
    it, every query is empty and the statistics are [{total_messages: 0}]
    (whatever other threads do to the queue after the first read of
    [get_log_statistics], which finds it empty); the console, the files,
    the monitor threads and the native library are as before; and the
    calls made after it fill the queue as they fill a fresh one. *)
Theorem clear_local_logs_resets (w : World) (calls : list Ingestion) :
  let w0 := api_step CallClearLocalLogs w in
  (forall (component level : string) (limit : Z),
     get_local_logs (self w0) component level limit = []) /\
  (forall logs : Live,
     fst (look logs) = _local_queue (self w0) ->
     get_log_statistics logs = Returned (mk_statistics 0 None None None None)) /\
  console w0 = console w /\ files w0 = files w /\
  pollers w0 = pollers w /\ native_calls w0 = native_calls w /\
  _local_queue (self (ingest_all calls w0)) = most_recent CAPACITY (map entry_of calls).
Proof.
  intros w0. split; [|split; [|repeat split]].
  - intros component level limit. rewrite get_local_logs_slice. simpl.
    apply slice_from_nil.
  - intros logs Hlook. unfold get_log_statistics.
    destruct (look logs) as [found rest]. simpl in Hlook. subst found. reflexivity.
  - apply ingest_all_queue. reflexivity.
Qed.

End HistoryQueries.

(** ** More on statistics *)

Section StatisticsMore.

Lemma count_by_snoc (key : LogEntry -> string) (logs : list LogEntry) (x : LogEntry) :
  count_by key (logs ++ [x]) =
  <[key x := (default 0 (count_by key logs !! key x) + 1)%nat]> (count_by key logs).
Proof. unfold count_by. rewrite fold_left_app. reflexivity. Qed.

Lemma count_of_snoc (key : LogEntry -> string) (k : string) (logs : list LogEntry)
    (x : LogEntry) :
  count_of key k (logs ++ [x]) =
  (count_of key k logs + (if decide (key x = k) then 1 else 0))%nat.
Proof.
  unfold count_of. rewrite filter_app, length_app, filter_cons.
  destruct (decide (key x = k)); reflexivity.
Qed.

(** A distribution maps each key to the number of entries that carry it,
    and has no key for a count of zero. *)
Lemma count_by_lookup (key : LogEntry -> string) (logs : list LogEntry) (k : string) :
  count_by key logs !! k = count_entry (count_of key k logs).
Proof.
  induction logs as [|x logs IH] using rev_ind; [reflexivity|].
  rewrite count_by_snoc, count_of_snoc.
  destruct (decide (key x = k)) as [->|Hne].
  - rewrite lookup_insert_eq, IH. unfold count_entry.
    destruct (Nat.eqb_spec (count_of key k logs) 0) as [->|Hpos]; simpl.
    + reflexivity.
    + destruct (Nat.eqb_spec (count_of key k logs + 1) 0); [lia|reflexivity].
  - rewrite lookup_insert_ne by exact Hne. rewrite IH, Nat.add_0_r. reflexivity.
Qed.

(** X9.  Whatever happened in the process before, when the queue is not
    empty and no other thread changes it while [get_log_statistics] runs
    (every read of the call finds the same list), the two distributions
    map each level (each component) to the number of entries of the queue
    that carry it, and have no key for a level (a component) that no
    entry carries. *)
Theorem statistics_distributions_count (application_name process_name : string)
    (ienv : InitEnv) (history : list Event) (logs : Live) :
  let logger := self (history_world application_name process_name ienv history) in
  _local_queue logger <> [] ->
  unchanged (_local_queue logger) logs ->
  exists (st : Statistics) (levels components : gmap string nat),
    get_log_statistics logs = Returned st /\
    level_distribution st = Some levels /\
    component_distribution st = Some components /\
    forall k : string,
      levels !! k = count_entry (count_of Log.level k (_local_queue logger)) /\
      components !! k = count_entry (count_of Log.component k (_local_queue logger)).
Proof.
  intros logger Hne Hu.
  destruct (history_queue_ok application_name process_name ienv history)
    as (_ & Hst & _).
  fold logger in Hst. rewrite (get_log_statistics_unchanged _ _ Hu).
  destruct (time_range_of_returns _ Hst) as (tr & -> & _).
  destruct (_local_queue logger) as [|log queue] eqn:Hq; [congruence|].
  cbn [truthy_list negb].
  eexists _, _, _. split; [reflexivity|]. split; [reflexivity|].
  split; [reflexivity|]. intros k. split; apply count_by_lookup.
Qed.

Lemma statistics_distributions_count_witness :
  _local_queue (self sample_logged) <> [] /\
  unchanged (_local_queue (self sample_logged)) (still sample_queue) /\
  exists (st : Statistics) (levels components : gmap string nat),
    get_log_statistics (still sample_queue) = Returned st /\
    level_distribution st = Some levels /\
    component_distribution st = Some components /\
    forall k : string,
      levels !! k = count_entry (count_of Log.level k (_local_queue (self sample_logged))) /\
      components !! k =
        count_entry (count_of Log.component k (_local_queue (self sample_logged))).
Proof.
  split; [exact sample_logged_nonempty|].
  split; [exact (unchanged_still sample_queue)|].
  exact (statistics_distributions_count "App" "" sample_init sample_history
           (still sample_queue) sample_logged_nonempty (unchanged_still sample_queue)).
Defined.

(** X10.  The statistics agree with the queries when no other thread
    changes the queue while [get_log_statistics] runs: whatever happened
    in the process before, for a level filter that is not empty the count
    of [level_distribution] under the upper-case form of the filter is
    the number of entries that [get_local_logs] returns for it from the
    same queue with a limit of 1000 (no key when the query is empty). *)
Theorem statistics_agree_with_queries (application_name process_name : string)
    (ienv : InitEnv) (history : list Event) (level : string) (logs : Live) :
  let logger := self (history_world application_name process_name ienv history) in
  _local_queue logger <> [] ->
  level <> "" ->
  unchanged (_local_queue logger) logs ->
  exists (st : Statistics) (levels : gmap string nat),
    get_log_statistics logs = Returned st /\
    level_distribution st = Some levels /\
    levels !! upper level =
      count_entry (length (get_local_logs logger "" level 1000)).
Proof.
  intros logger Hne Hl Hu.
  destruct (history_queue_ok application_name process_name ienv history)
    as (_ & Hst & Hlen).
  fold logger in Hst, Hlen. unfold CAPACITY in Hlen.
  assert (E : count_by Log.level (_local_queue logger) !! upper level =
              count_entry (length (get_local_logs logger "" level 1000))).
  { rewrite count_by_lookup. f_equal. unfold count_of.
    rewrite get_local_logs_slice.
    assert (E : filter (passes "" level) (_local_queue logger) =
                filter (fun log => Log.level log = upper level) (_local_queue logger)).
    { apply list_filter_iff. intros log. unfold passes. tauto. }
    rewrite E. unfold slice_from.
    destruct (Z.ltb_spec (- 1000) 0); [|lia].
    pose proof (length_filter (fun log => Log.level log = upper level)
                  (_local_queue logger)).
    rewrite Z.max_r by lia. reflexivity. }
  rewrite (get_log_statistics_unchanged _ _ Hu).
  destruct (time_range_of_returns _ Hst) as (tr & -> & _).
  destruct (_local_queue logger) as [|log queue] eqn:Hq; [congruence|].
  cbn [truthy_list negb].
  eexists _, _. split; [reflexivity|]. split; [reflexivity|]. exact E.
Qed.

Lemma statistics_agree_with_queries_witness :
  _local_queue (self sample_logged) <> [] /\ "info" <> "" /\
  unchanged (_local_queue (self sample_logged)) (still sample_queue) /\
  exists (st : Statistics) (levels : gmap string nat),
    get_log_statistics (still sample_queue) = Returned st /\
    level_distribution st = Some levels /\
    levels !! upper "info" =
      count_entry (length (get_local_logs (self sample_logged) "" "info" 1000)).
Proof.
  assert (H : "info" <> "") by discriminate.
  split; [exact sample_logged_nonempty|]. split; [exact H|].
  split; [exact (unchanged_still sample_queue)|].
  exact (statistics_agree_with_queries "App" "" sample_init sample_history "info"
           (still sample_queue) sample_logged_nonempty H (unchanged_still sample_queue)).
Defined.

(** X11.  Whatever happened in the process before, when the queue is not
    empty and no other thread changes it while [get_log_statistics] runs,
    the rate [messages_per_second] is positive and never above
    [total_messages]: the divisor is at least one second. *)
Theorem statistics_rate_bounds (application_name process_name : string)
    (ienv : InitEnv) (history : list Event) (logs : Live) :
  let logger := self (history_world application_name process_name ienv history) in
  _local_queue logger <> [] ->
  unchanged (_local_queue logger) logs ->
  exists (st : Statistics) (rate : Q),
    get_log_statistics logs = Returned st /\
    messages_per_second st = Some rate /\
    (0 < rate)%Q /\
    (rate <= inject_Z (Z.of_nat (total_messages st)))%Q.
Proof.
  intros logger Hne Hu.
  destruct (get_log_statistics_rate (_local_queue logger) logs Hu Hne) as
    (st & tr & rate & Hret & Htot & _ & Hrate & _ & -> & Hmax).
  { apply (history_queue_ok application_name process_name ienv history). }
  exists st, (inject_Z (Z.of_nat (total_messages st)) / Py.max tr 1)%Q.
  split; [exact Hret|]. split; [exact Hrate|].
  assert (Hpos : (0 < Py.max tr 1)%Q) by (eapply Qlt_le_trans; [|exact Hmax]; reflexivity).
  assert (Hn : (0 < inject_Z (Z.of_nat (total_messages st)))%Q).
  { rewrite Htot. destruct (_local_queue logger); [congruence|].
    unfold Qlt. simpl. lia. }
  split.
  - apply Qlt_shift_div_l; [exact Hpos|]. rewrite Qmult_0_l. exact Hn.
  - apply Qle_shift_div_r; [exact Hpos|].
    rewrite <- (Qmult_1_r (inject_Z (Z.of_nat (total_messages st)))) at 1.
    apply Qmult_le_l; [exact Hn|exact Hmax].
Qed.

Lemma statistics_rate_bounds_witness :
  _local_queue (self sample_logged) <> [] /\
  unchanged (_local_queue (self sample_logged)) (still sample_queue) /\
  exists (st : Statistics) (rate : Q),
    get_log_statistics (still sample_queue) = Returned st /\
    messages_per_second st = Some rate /\
    (0 < rate)%Q /\
    (rate <= inject_Z (Z.of_nat (total_messages st)))%Q.
Proof.
  split; [exact sample_logged_nonempty|].
  split; [exact (unchanged_still sample_queue)|].
  exact (statistics_rate_bounds "App" "" sample_init sample_history (still sample_queue)
           sample_logged_nonempty (unchanged_still sample_queue)).
Defined.

End StatisticsMore.

(** ** More on the ingestion calls *)

Section IngestionMore.

Lemma log_with_component_native_fault (env : RecordEnv)
    (level message component function : string) (w : World) (e : PyExc) :
  let good := _log_with_component (with_native_fault env None)
                level message component function w in
  let bad := _log_with_component (with_native_fault env (Some e))
               level message component function w in
  snd bad = snd good /\
  self (fst bad) = self (fst good) /\
  console (fst bad) = console (fst good) /\
  files (fst bad) = files (fst good) /\
  pollers (fst bad) = pollers (fst good) /\
  native_calls (fst bad) = native_calls w.
Proof.
  unfold _log_with_component, with_native_fault.
  cbn [now native_fault print_fault handler_print_fault set_native_calls set_self
       self console native_calls files pollers].
  destruct (_output_to_python_logging _ _ _ _) as [out [u|e1]].
  - destruct (truthy_handle (_logger (self w)) && _library_loaded (self w));
      repeat split.
  - destruct (print _ _ _) as [out' [u|e2]];
      destruct (truthy_handle (_logger (self w)) && _library_loaded (self w));
      repeat split.
Qed.

(** X12.  A failure of the native block (encoding the arguments or the
    call of [log]) changes nothing else: the call returns or raises as it
    does when the native block works, with the same queue, console, files
    and monitor threads; only no call is delivered to the library. *)
Theorem native_failure_is_isolated (m : Method) (env : RecordEnv)
    (message component function : string) (w : World) (e : PyExc) :
  let good := ingest m (with_native_fault env None) message component function w in
  let bad := ingest m (with_native_fault env (Some e)) message component function w in
  snd bad = snd good /\
  self (fst bad) = self (fst good) /\
  console (fst bad) = console (fst good) /\
  files (fst bad) = files (fst good) /\
  pollers (fst bad) = pollers (fst good) /\
  native_calls (fst bad) = native_calls w.
Proof. destruct m; apply log_with_component_native_fault. Qed.

Lemma method_of_level_name (m : Method) : method_of_level (method_name m) = Some m.
Proof. destruct m; reflexivity. Qed.

Lemma output_to_python_logging_line (level message : string) (out : Console) :
  _output_to_python_logging None level message out =
  (match method_of_level level with
   | Some m => (out ++ [(console_word m ++ ": " ++ message)%string])%list
   | None => out
   end, Returned tt).
Proof.
  unfold _output_to_python_logging, method_of_level.
  repeat (match goal with |- context [if ?b then _ else _] => destruct b end);
    reflexivity.
Qed.

(** X13.  When its [print] works, [_log_with_component] returns normally
    and adds exactly one line to the console for a level that is one of
    the six names in any case: the word of the level ([WARNING] for
    [warn]), a colon and the formatted message.  For any other level it
    prints nothing, and still appends the entry.  Each of the six methods
    passes a level with a word. *)
Theorem log_with_component_console (env : RecordEnv)
    (level message component function : string) (w : World) :
  print_fault env = None ->
  let result := _log_with_component env level message component function w in
  let entry := make_entry env level message component function in
  snd result = Returned tt /\
  printed w (fst result) =
    match method_of_level level with
    | Some m => [console_word m ++ ": " ++ Log.formatted_message entry]
    | None => []
    end /\
  _local_queue (self (fst result)) = enqueue entry (_local_queue (self w)) /\
  forall m : Method, method_of_level (method_name m) = Some m.
Proof.
  intros Hp result entry.
  split; [apply log_with_component_returns; left; exact Hp|].
  split; [|split; [apply log_with_component_queue|apply method_of_level_name]].
  unfold result, printed, _log_with_component. rewrite Hp. simpl.
  rewrite output_to_python_logging_line. simpl.
  destruct (method_of_level level); simpl.
  - apply drop_app_length.
  - rewrite drop_all. reflexivity.
Qed.

Lemma log_with_component_console_witness :
  let env := quiet (mk_datetime 2024 3 9 7 5 1 123456) eq_refl in
  print_fault env = None /\
  let result := _log_with_component env "warn" "disk" "Core" "" sample_world in
  let entry := make_entry env "warn" "disk" "Core" "" in
  snd result = Returned tt /\
  printed sample_world (fst result) =
    match method_of_level "warn" with
    | Some m => [console_word m ++ ": " ++ Log.formatted_message entry]
    | None => []
    end /\
  _local_queue (self (fst result)) = enqueue entry (_local_queue (self sample_world)) /\
  forall m : Method, method_of_level (method_name m) = Some m.
Proof.
  intros env. assert (H : print_fault env = None) by reflexivity.
  split; [exact H|].
  exact (log_with_component_console env "warn" "disk" "Core" "" sample_world H).
Defined.

Lemma log_with_component_native env level message component function w :
  local_only (self w) ->
  native_calls (fst (_log_with_component env level message component function w)) =
  native_calls w.
Proof.
  unfold local_only. intros H. unfold _log_with_component. rewrite H.
  destruct (_output_to_python_logging _ _ _ _) as [out [u|e]]; simpl; [reflexivity|].
  destruct (print _ _ _) as [out' [u|e']]; reflexivity.
Qed.

Lemma log_with_component_fields env level message component function w :
  let s := self (fst (_log_with_component env level message component function w)) in
  _logger s = _logger (self w) /\ _library_loaded s = _library_loaded (self w).
Proof.
  unfold _log_with_component.
  destruct (_output_to_python_logging _ _ _ _) as [out [u|e]]; simpl; [split; reflexivity|].
  destruct (print _ _ _) as [out' [u|e']]; split; reflexivity.
Qed.

Lemma configure_enhanced_native env config w :
  local_only (self w) ->
  native_calls (fst (configure_enhanced env config w)) = native_calls w.
Proof.
  unfold local_only. intros H. unfold configure_enhanced. rewrite H.
  destruct (configure_print_fault env), (configure_handler_print_fault env); reflexivity.
Qed.

Lemma export_logs_to_file_native env path format w :
  native_calls (fst (export_logs_to_file env path format w)) = native_calls w.
Proof.
  unfold export_logs_to_file.
  destruct (if String.eqb (lower format) "json" then _ else _) as [fs [u|e]];
    destruct (export_print_fault env), (export_handler_print_fault env); reflexivity.
Qed.

Lemma enable_native env cb interval w :
  native_calls (fst (enable_real_time_monitoring env cb interval w)) = native_calls w.
Proof.
  unfold enable_real_time_monitoring. destruct (enable_print_fault env); reflexivity.
Qed.

Lemma ingest_fields m env message component function w :
  _logger (self (fst (ingest m env message component function w))) = _logger (self w) /\
  _library_loaded (self (fst (ingest m env message component function w))) =
    _library_loaded (self w).
Proof. destruct m; apply log_with_component_fields. Qed.

Lemma step_local_only (ev : Event) (w : World) :
  local_only (self w) ->
  local_only (self (step ev w)) /\ native_calls (step ev w) = native_calls w.
Proof.
  intros H. destruct ev as [c|i env]; simpl.
  - destruct c; simpl;
      rewrite ?configure_enhanced_self, ?export_logs_to_file_self,
        ?enable_real_time_monitoring_self, ?export_logs_to_file_native, ?enable_native;
      try (split; [exact H|reflexivity]).
    + split.
      * unfold local_only in *.
        destruct (ingest_fields m env message component function w) as [-> ->].
        exact H.
      * destruct m; apply log_with_component_native, H.
    + split; [exact H|apply configure_enhanced_native, H].
  - destruct (pollers w !! i) as [p|]; [|split; [exact H|reflexivity]].
    destruct (monitoring_iteration _ _ _ _). split; [exact H|reflexivity].
Qed.

(** X14.  In local-only mode (the library was not found, or
    [getInstance] gave no handle) nothing ever reaches the native
    library: whatever happens in the process, the list of native calls
    stays empty. *)
Theorem local_only_never_calls_native (application_name process_name : string)
    (ienv : InitEnv) (history : list Event) :
  local_only (__init__ application_name process_name ienv) ->
  native_calls (history_world application_name process_name ienv history) = [].
Proof.
  intros H. unfold history_world.
  assert (G : forall w, local_only (self w) ->
                native_calls (run history w) = native_calls w).
  { induction history as [|ev evs IH]; intros w Hw; simpl; [reflexivity|].
    destruct (step_local_only ev w Hw) as [Hw' E].
    rewrite IH by exact Hw'. exact E. }
  rewrite G by exact H. reflexivity.
Qed.

Lemma local_only_never_calls_native_witness :
  local_only (__init__ "App" "" sample_init) /\
  native_calls (history_world "App" "" sample_init sample_history) = [].
Proof.
  assert (H : local_only (__init__ "App" "" sample_init)) by reflexivity.
  split; [exact H|].
  exact (local_only_never_calls_native "App" "" sample_init sample_history H).
Defined.

End IngestionMore.

(** ** The entries of a queue the logger built *)

Section EntryShape.

Lemma string_length_chars (s : string) :
  String.length s = length (list_ascii_of_string s).
Proof. induction s as [|c s IH]; simpl; [reflexivity|]. rewrite IH. reflexivity. Qed.

Lemma make_timestamp_length (d : datetime) : String.length (make_timestamp d) = 23%nat.
Proof.
  rewrite string_length_chars, make_timestamp_chars.
  repeat (first [rewrite length_app | rewrite length_cons | rewrite length_zpad]).
  reflexivity.
Qed.

Lemma make_entry_shape (m : Method) (env : RecordEnv) (message component function : string) :
  entry_shape (make_entry env (method_name m) message component function).
Proof.
  unfold entry_shape, make_entry.
  cbn [Log.level Log.timestamp Log.component Log.message Log.formatted_message].
  split; [|split; [|split]].
  - destruct m; simpl; unfold level_names; set_solver.
  - apply make_timestamp_length.
  - exists (truncate_ms (now env)).
    exact (strptime_make_timestamp (now env) (now_valid env)).
  - reflexivity.
Qed.

Lemma step_queue_Forall (P : LogEntry -> Prop) (ev : Event) (w : World) :
  (forall m env message component function,
     P (make_entry env (method_name m) message component function)) ->
  Forall P (_local_queue (self w)) ->
  Forall P (_local_queue (self (step ev w))).
Proof.
  intros HP Hw. destruct ev as [c|i env]; simpl.
  - destruct c; simpl;
      rewrite ?configure_enhanced_self, ?export_logs_to_file_self,
        ?enable_real_time_monitoring_self; try exact Hw.
    + rewrite ingest_queue. apply enqueue_Forall; [apply HP|exact Hw].
    + constructor.
  - destruct (pollers w !! i) as [p|]; [|exact Hw].
    destruct (monitoring_iteration _ _ _ _). exact Hw.
Qed.

Lemma run_queue_Forall (P : LogEntry -> Prop) (evs : list Event) (w : World) :
  (forall m env message component function,
     P (make_entry env (method_name m) message component function)) ->
  Forall P (_local_queue (self w)) ->
  Forall P (_local_queue (self (run evs w))).
Proof.
  intros HP. revert w. induction evs as [|ev evs IH]; intros w Hw; simpl; [exact Hw|].
  apply IH, step_queue_Forall; assumption.
Qed.

(** X15.  Whatever happened in the process before, every entry of the
    queue has a level among [TRACE], [DEBUG], [INFO], [WARN], [ERROR],
    [CRITICAL], a stamp of 23 characters that [strptime] reads, and a
    formatted message equal to ["[stamp] [component] message"] for its own
    stamp, component and message. *)
Theorem history_entries_shape (application_name process_name : string)
    (ienv : InitEnv) (history : list Event) :
  Forall entry_shape
    (_local_queue (self (history_world application_name process_name ienv history))).
Proof.
  unfold history_world. apply run_queue_Forall.
  - intros. apply make_entry_shape.
  - constructor.
Qed.

Lemma to_micro_truncate_ms (d : datetime) :
  to_micro (truncate_ms d) = to_micro d - microsecond d mod 1000.
Proof.
  unfold to_micro, truncate_ms, toordinal. simpl.
  pose proof (Z.div_mod (microsecond d) 1000). lia.
Qed.

(** X16.  The stamp of the entry that an ingestion call appends is never
    later than the reading of the clock the call took, and less than one
    millisecond earlier: on the scale of microseconds the difference is
    the reading's microseconds modulo 1000. *)
Theorem stamp_within_a_millisecond (c : Ingestion) (w : World) :
  exists (entry : LogEntry) (stamp : datetime),
    last (_local_queue (self (fst (ingest_one c w)))) = Some entry /\
    strptime (Log.timestamp entry) = Some stamp /\
    to_micro (now (ing_env c)) - to_micro stamp = microsecond (now (ing_env c)) mod 1000 /\
    0 <= to_micro (now (ing_env c)) - to_micro stamp <= 999.
Proof.
  exists (entry_of c), (truncate_ms (now (ing_env c))).
  rewrite ingest_one_queue, last_enqueue. split; [reflexivity|].
  split; [simpl; apply strptime_make_timestamp, now_valid|].
  rewrite to_micro_truncate_ms.
  pose proof (Z.mod_pos_bound (microsecond (now (ing_env c))) 1000).
  lia.
Qed.

End EntryShape.

(** ** More on exports *)

Section ExportMore.

(** X18.  The export of an empty queue: in the [csv] format nothing is
    written, so a file that was at the destination stays as it was, while
    the [json] and [txt] formats replace it by the document of no entry;
    in all three cases the call prints that 0 messages were exported. *)
Theorem export_of_empty_queue (file_path format : string) (w : World) :
  _local_queue (self w) = [] ->
  let w' := fst (export_logs_to_file export_ok file_path format w) in
  (lower format = "csv" -> files w' = files w) /\
  (lower format = "json" -> files w' = <[file_path := JsonDump []]> (files w)) /\
  (lower format = "txt" -> files w' = <[file_path := Text ""]> (files w)) /\
  printed w w' = ["Exported 0 log messages to " ++ file_path].
Proof.
  intros Hq w'. unfold w', export_logs_to_file, printed. rewrite Hq.
  split; [|split; [|split]].
  - intros ->. reflexivity.
  - intros ->. reflexivity.
  - intros ->. reflexivity.
  - repeat (match goal with |- context [if ?b then _ else _] => destruct b end);
      simpl; apply drop_app_length.
Qed.

Lemma export_of_empty_queue_witness :
  _local_queue (self sample_world) = [] /\
  let w' := fst (export_logs_to_file export_ok "out.csv" "CSV" sample_world) in
  (lower "CSV" = "csv" -> files w' = files sample_world) /\
  (lower "CSV" = "json" -> files w' = <[ "out.csv" := JsonDump []]> (files sample_world)) /\
  (lower "CSV" = "txt" -> files w' = <[ "out.csv" := Text ""]> (files sample_world)) /\
  printed sample_world w' = ["Exported 0 log messages to " ++ "out.csv"].
Proof.
  assert (H : _local_queue (self sample_world) = []) by reflexivity.
  split; [exact H|].
  exact (export_of_empty_queue "out.csv" "CSV" sample_world H).
Defined.

(** X19.  When the destination opens but the writing fails, the export
    leaves a torn file at the destination, whatever was there before, and
    still returns [None]: it prints the exception and nothing else. *)
Theorem failed_write_tears_the_file (env : ExportEnv) (file_path format : string)
    (w : World) (e : PyExc) :
  open_fault env = None ->
  write_fault env = Some e ->
  export_handler_print_fault env = None ->
  is_Some (export_document format (_local_queue (self w))) ->
  let w' := fst (export_logs_to_file env file_path format w) in
  files w' = <[file_path := Torn]> (files w) /\
  snd (export_logs_to_file env file_path format w) = Returned tt /\
  printed w w' = ["Error exporting logs: " ++ exc_str e].
Proof.
  intros Ho Hw Hh [document Hdoc] w'.
  split; [|split; [apply export_returns, Hh|]].
  - unfold w'. rewrite export_files. unfold export_document in Hdoc.
    unfold write_file. rewrite Ho, Hw.
    destruct (String.eqb (lower format) "json"); [reflexivity|].
    destruct (String.eqb (lower format) "csv").
    { destruct (truthy_list (_local_queue (self w))); [reflexivity|discriminate]. }
    destruct (String.eqb (lower format) "txt"); [reflexivity|discriminate].
  - unfold w', printed, export_logs_to_file, write_file.
    unfold export_document in Hdoc. rewrite Ho, Hw, Hh.
    destruct (String.eqb (lower format) "json"); [simpl; apply drop_app_length|].
    destruct (String.eqb (lower format) "csv").
    { destruct (truthy_list (_local_queue (self w))); [|discriminate].
      simpl. apply drop_app_length. }
    destruct (String.eqb (lower format) "txt"); [|discriminate].
    simpl. apply drop_app_length.
Qed.

Lemma failed_write_tears_the_file_witness :
  let env := mk_export_env None (Some (Exc "OSError" "[Errno 28] No space left on device"))
               None None in
  open_fault env = None /\
  write_fault env = Some (Exc "OSError" "[Errno 28] No space left on device") /\
  export_handler_print_fault env = None /\
  is_Some (export_document "txt" (_local_queue (self sample_logged))) /\
  let w' := fst (export_logs_to_file env "out.txt" "txt" sample_logged) in
  files w' = <[ "out.txt" := Torn]> (files sample_logged) /\
  snd (export_logs_to_file env "out.txt" "txt" sample_logged) = Returned tt /\
  printed sample_logged w' = ["Error exporting logs: " ++ "[Errno 28] No space left on device"].
Proof.
  intros env.
  assert (H1 : open_fault env = None) by reflexivity.
  assert (H2 : write_fault env = Some (Exc "OSError" "[Errno 28] No space left on device"))
    by reflexivity.
  assert (H3 : export_handler_print_fault env = None) by reflexivity.
  assert (H4 : is_Some (export_document "txt" (_local_queue (self sample_logged))))
    by (eexists; reflexivity).
  split; [exact H1|]. split; [exact H2|]. split; [exact H3|]. split; [exact H4|].
  exact (failed_write_tears_the_file env "out.txt" "txt" sample_logged _ H1 H2 H3 H4).
Defined.

Lemma lower_char_idem (c : ascii) : lower_char (lower_char c) = lower_char c.
Proof. destruct c as [[] [] [] [] [] [] [] []]; reflexivity. Qed.

Lemma lower_idem (s : string) : lower (lower s) = lower s.
Proof.
  induction s as [|c s IH]; simpl; [reflexivity|].
  rewrite lower_char_idem, IH. reflexivity.
Qed.

(** X20.  An export reads its format only through [format.lower()], so two
    formats with the same lower-case form give the same export; and when
    nothing fails, exporting again to the same destination in the same
    format changes no file. *)
Theorem export_repeats (env : ExportEnv) (file_path format format' : string) (w : World) :
  lower format = lower format' ->
  export_logs_to_file env file_path format w = export_logs_to_file env file_path format' w /\
  files (fst (export_logs_to_file export_ok file_path format'
                (fst (export_logs_to_file export_ok file_path format w)))) =
  files (fst (export_logs_to_file export_ok file_path format w)).
Proof.
  intros E. split.
  - unfold export_logs_to_file. rewrite E. reflexivity.
  - rewrite !export_files, export_logs_to_file_self, <- E. unfold write_file. simpl.
    repeat (match goal with |- context [if ?b then _ else _] => destruct b end);
      simpl; rewrite ?insert_insert_eq; reflexivity.
Qed.

Lemma export_repeats_witness :
  lower "JSON" = lower "json" /\
  export_logs_to_file export_ok "out.json" "JSON" sample_logged =
    export_logs_to_file export_ok "out.json" "json" sample_logged /\
  files (fst (export_logs_to_file export_ok "out.json" "json"
                (fst (export_logs_to_file export_ok "out.json" "JSON" sample_logged)))) =
  files (fst (export_logs_to_file export_ok "out.json" "JSON" sample_logged)).
Proof.
  assert (H : lower "JSON" = lower "json") by reflexivity.
  split; [exact H|].
  exact (export_repeats export_ok "out.json" "JSON" "json" sample_logged H).
Defined.

Lemma string_append_assoc (a b c : string) : (a ++ b) ++ c = a ++ (b ++ c).
Proof.
  induction a as [|x a IH]; [reflexivity|].
  change (String x ((a ++ b) ++ c) = String x (a ++ (b ++ c))). rewrite IH. reflexivity.
Qed.

Lemma string_append_nil_r (a : string) : a ++ "" = a.
Proof.
  induction a as [|x a IH]; [reflexivity|].
  change (String x (a ++ "") = String x a). rewrite IH. reflexivity.
Qed.

Lemma txt_export_app (a b : list LogEntry) :
  txt_export (a ++ b) = txt_export a ++ txt_export b.
Proof.
  unfold txt_export. induction a as [|x a IH]; [reflexivity|].
  change (txt_line x ++ fold_right String.append "" (map txt_line (a ++ b)) =
          (txt_line x ++ fold_right String.append "" (map txt_line a)) ++
          fold_right String.append "" (map txt_line b)).
  rewrite IH. symmetry. apply string_append_assoc.
Qed.

(** X21.  The plain-text export holds one line per entry, in the order of
    the queue: after a successful [txt] export the destination holds the
    text of the queue, and the text of a queue below its capacity grows by
    exactly the line of the entry when one more call is made:
    [stamp [LEVEL] [component] message] and a newline. *)
Theorem txt_export_grows_by_a_line (c : Ingestion) (file_path : string) (w : World) :
  (length (_local_queue (self w)) < CAPACITY)%nat ->
  let w1 := fst (ingest_one c w) in
  files (fst (export_logs_to_file export_ok file_path "txt" w1)) !! file_path =
    Some (Text (txt_export (_local_queue (self w)) ++
                Log.timestamp (entry_of c) ++ " [" ++ Log.level (entry_of c) ++ "] ["
                ++ ing_component c ++ "] " ++ ing_message c ++ newline)).
Proof.
  intros Hlen w1. rewrite export_files. simpl. unfold write_file. simpl.
  rewrite lookup_insert_eq. unfold w1. rewrite ingest_one_queue. unfold enqueue.
  destruct (Nat.ltb_spec CAPACITY (length (_local_queue (self w) ++ [entry_of c])))
    as [Hfull|_].
  { rewrite length_app in Hfull. simpl in Hfull. lia. }
  rewrite txt_export_app. f_equal. f_equal. f_equal.
  change (txt_export [entry_of c]) with (txt_line (entry_of c) ++ "").
  rewrite string_append_nil_r. reflexivity.
Qed.

Lemma txt_export_grows_by_a_line_witness :
  (length (_local_queue (self sample_world)) < CAPACITY)%nat /\
  let w1 := fst (ingest_one sample_call sample_world) in
  files (fst (export_logs_to_file export_ok "out.txt" "txt" w1)) !! "out.txt" =
    Some (Text (txt_export (_local_queue (self sample_world)) ++
                Log.timestamp (entry_of sample_call) ++ " ["
                ++ Log.level (entry_of sample_call) ++ "] ["
                ++ ing_component sample_call ++ "] " ++ ing_message sample_call ++ newline)).
Proof.
  assert (H : (length (_local_queue (self sample_world)) < CAPACITY)%nat)
    by (unfold CAPACITY; simpl; lia).
  split; [exact H|].
  exact (txt_export_grows_by_a_line sample_call "out.txt" sample_world H).
Defined.

End ExportMore.

(** ** More on monitoring *)

Section MonitoringMore.

(** When the comprehension of the loop completes, it is the filter of the
    queue by the stamps later than the last check. *)
Lemma new_messages_since_filter (local : Z -> Z) (t : Z) (queue r : list LogEntry) :
  new_messages_since local t queue = Returned r ->
  r = filter (stamped_after (local t)) queue.
Proof.
  revert r. induction queue as [|log queue IH]; intros r; simpl.
  - intros [= <-]. reflexivity.
  - destruct (strptime (Log.timestamp log)) as [d|] eqn:Hd; [|discriminate].
    destruct (new_messages_since local t queue) as [r0|e]; [|discriminate].
    intros [= <-]. rewrite filter_cons, <- (IH r0 eq_refl).
    destruct (decide (stamped_after (local t) log)) as [Hs|Hs];
      unfold stamped_after in Hs; rewrite Hd in Hs;
      destruct (Z.ltb_spec (local t) (to_micro d)); try reflexivity; lia.
Qed.

Lemma new_messages_since_returns (local : Z -> Z) (t : Z) (queue : list LogEntry) :
  well_stamped queue ->
  new_messages_since local t queue = Returned (filter (stamped_after (local t)) queue).
Proof.
  intros Hq.
  assert (H : exists r, new_messages_since local t queue = Returned r).
  { induction Hq as [|log queue [d Hd] _ [r Hr]]; simpl; [eauto|].
    rewrite Hd, Hr. eauto. }
  destruct H as [r Hr]. rewrite Hr. f_equal. apply new_messages_since_filter, Hr.
Qed.

Lemma truthy_list_true {A} (l : list A) : truthy_list l = true <-> l <> [].
Proof. destruct l; simpl; split; congruence. Qed.

(** What one iteration does to the record of its thread. *)
Lemma monitoring_iteration_spec (env : TickEnv) (queue : list LogEntry)
    (p p' : Poller) (out out' : Console) :
  monitoring_iteration env queue p out = (p', out') ->
  callback p' = callback p /\
  interval_seconds p' = interval_seconds p /\
  ((0 <= interval_seconds p)%Q -> last_check_time p <= last_check_time p') /\
  (delivered p' = delivered p \/
   (callback p <> None /\
    filter (stamped_after (fromtimestamp env (last_check_time p))) queue <> [] /\
    delivered p' =
      (delivered p ++
         [filter (stamped_after (fromtimestamp env (last_check_time p))) queue])%list)).
Proof.
  unfold monitoring_iteration. intros H.
  destruct (status p); [|injection H as <- <-; repeat split; [lia|auto]].
  destruct (Qle_bool _ _) eqn:Hq; [|injection H as <- <-; repeat split; [lia|auto]].
  assert (Hmono : (0 <= interval_seconds p)%Q ->
                  last_check_time p <= time_time env).
  { intros H0. apply Qle_bool_iff in Hq.
    pose proof (Qle_trans _ _ _ H0 Hq) as Hle. unfold Qle in Hle. simpl in Hle. lia. }
  destruct (new_messages_since _ _ _) as [r|e] eqn:Hr.
  2: { unfold loop_failed in H. injection H as <- <-. repeat split; [simpl; lia|auto]. }
  apply new_messages_since_filter in Hr. subst r.
  destruct (truthy_list _ && _) eqn:Hc.
  2: { injection H as <- <-. repeat split; [exact Hmono|auto]. }
  apply andb_prop in Hc. destruct Hc as [Hne Hcb].
  apply truthy_list_true in Hne.
  apply bool_decide_eq_true in Hcb.
  assert (Hcb' : callback p <> None) by (destruct Hcb as [f ->]; discriminate).
  destruct (callback_fault env); unfold loop_failed in H; injection H as <- <-;
    simpl; repeat split; auto; simpl; lia.
Qed.

Lemma api_step_pollers_ok (c : ApiCall) (w : World) :
  Forall poller_ok (pollers w) -> Forall poller_ok (pollers (api_step c w)).
Proof.
  intros H. destruct c; simpl; try exact H.
  - destruct m; unfold ingest, trace, debug, info, warn, error, critical;
      rewrite log_with_component_pollers; exact H.
  - rewrite configure_enhanced_pollers. exact H.
  - rewrite export_logs_to_file_pollers. exact H.
  - rewrite enable_pollers. apply Forall_app. split; [exact H|].
    repeat constructor.
Qed.

Lemma step_pollers_ok (ev : Event) (w : World) :
  Forall poller_ok (pollers w) -> Forall poller_ok (pollers (step ev w)).
Proof.
  intros H. destruct ev as [c|i env]; [apply api_step_pollers_ok, H|]. simpl.
  destruct (pollers w !! i) as [p|] eqn:Hp; [|exact H].
  destruct (monitoring_iteration env (_local_queue (self w)) p (console w))
    as [p' out] eqn:Hit. simpl.
  apply Forall_insert; [exact H|].
  assert (Hok : poller_ok p) by (exact (Forall_lookup_1 _ _ _ _ H Hp)).
  destruct Hok as [Hbatches Hnone].
  destruct (monitoring_iteration_spec _ _ _ _ _ _ Hit) as (Hcb & _ & _ & [E|(Hc & Hne & E)]).
  - split; rewrite E; [exact Hbatches|]. rewrite Hcb. exact Hnone.
  - split.
    + rewrite E. apply Forall_app. split; [exact Hbatches|]. repeat constructor. exact Hne.
    + rewrite Hcb. intros Hn. destruct (Hc Hn).
Qed.

(** X22.  Whatever happens in the process, a monitor thread never calls
    its callback with an empty list, and a thread enabled without a
    callback never delivers anything. *)
Theorem batches_are_never_empty (application_name process_name : string)
    (ienv : InitEnv) (history : list Event) :
  Forall poller_ok (pollers (history_world application_name process_name ienv history)).
Proof.
  unfold history_world.
  assert (G : forall w, Forall poller_ok (pollers w) ->
                Forall poller_ok (pollers (run history w))).
  { induction history as [|ev evs IH]; intros w Hw; simpl; [exact Hw|].
    apply IH, step_pollers_ok, Hw. }
  apply G. constructor.
Qed.

(** X23.  What an iteration of a monitor thread delivers: if its record
    of deliveries changes at all, it grows by one batch, which is not
    empty and holds exactly the entries of the queue whose stamp is later
    than the last check (as [datetime.fromtimestamp] gives it in that
    iteration), in the order of the queue; and a running thread with a
    callback whose interval has elapsed does deliver that batch when it
    is not empty. *)
Theorem delivered_batch_is_the_new_entries (w : World) (i : nat) (env : TickEnv)
    (p : Poller) :
  pollers w !! i = Some p ->
  let queue := _local_queue (self w) in
  let batch := filter (stamped_after (fromtimestamp env (last_check_time p))) queue in
  exists p' : Poller,
    pollers (step (Tick i env) w) !! i = Some p' /\
    (delivered p' = delivered p \/
     (batch <> [] /\ delivered p' = (delivered p ++ [batch])%list)) /\
    (status p = Running -> callback p <> None -> well_stamped queue ->
     Qle_bool (interval_seconds p) ((time_time env - last_check_time p) # 1000000) = true ->
     batch <> [] ->
     delivered p' = (delivered p ++ [batch])%list).
Proof.
  intros Hp queue batch. simpl. rewrite Hp.
  destruct (monitoring_iteration env (_local_queue (self w)) p (console w))
    as [p' out] eqn:Hit. simpl.
  exists p'. split.
  { apply list_lookup_insert_eq. apply lookup_lt_Some in Hp. exact Hp. }
  split.
  - destruct (monitoring_iteration_spec _ _ _ _ _ _ Hit) as (_ & _ & _ & [E|(_ & Hne & E)]);
      [left; exact E|right; split; [exact Hne|exact E]].
  - intros Hs Hcb Hst Hq Hne. unfold monitoring_iteration in Hit.
    rewrite Hs, Hq, (new_messages_since_returns _ _ _ Hst) in Hit.
    fold queue in Hit. fold batch in Hit.
    assert (Ht : truthy_list batch && bool_decide (is_Some (callback p)) = true).
    { apply andb_true_intro. split; [apply truthy_list_true, Hne|].
      apply bool_decide_eq_true. destruct (callback p); [eauto|congruence]. }
    rewrite Ht in Hit.
    destruct (callback_fault env); unfold loop_failed in Hit; injection Hit as <- <-;
      reflexivity.
Qed.

Lemma delivered_batch_is_the_new_entries_witness :
  pollers sample_monitored_late !! 0%nat = Some sample_poller_late /\
  let env := mk_tick_env (utc_reading (mk_datetime 2024 3 9 7 5 4 0)) utc None None in
  let queue := _local_queue (self sample_monitored_late) in
  let batch :=
    filter (stamped_after (fromtimestamp env (last_check_time sample_poller_late))) queue in
  exists p' : Poller,
    pollers (step (Tick 0 env) sample_monitored_late) !! 0%nat = Some p' /\
    (delivered p' = delivered sample_poller_late \/
     (batch <> [] /\ delivered p' = (delivered sample_poller_late ++ [batch])%list)) /\
    (status sample_poller_late = Running -> callback sample_poller_late <> None ->
     well_stamped queue ->
     Qle_bool (interval_seconds sample_poller_late)
       ((time_time env - last_check_time sample_poller_late) # 1000000) = true ->
     batch <> [] ->
     delivered p' = (delivered sample_poller_late ++ [batch])%list).
Proof.
  assert (H : pollers sample_monitored_late !! 0%nat = Some sample_poller_late)
    by reflexivity.
  split; [exact H|].
  exact (delivered_batch_is_the_new_entries sample_monitored_late 0
           (mk_tick_env (utc_reading (mk_datetime 2024 3 9 7 5 4 0)) utc None None)
           sample_poller_late H).
Defined.









(** Where the local time steps back an entry is delivered again.  The
    clocks go from summer time to winter time; the entry, stamped 02:45
    in summer time, is delivered by the iteration of 02:50, and once more
    by the iteration of 02:10 in winter time, whose last check was at
    02:05 in winter time. *)
Example fall_back_delivers_again :
  batches (run fall_back_ticks fall_back_world) 0 =
    [[entry_of fall_back_call]; [entry_of fall_back_call]].
Proof. vm_compute. reflexivity. Qed.

End MonitoringMore.

(** ** The constructor and the functions of the module *)

Section StartupMore.

Ltac open_construct :=
  unfold construct, _load_cpp_library, _initialize_enhanced_features,
    load_first_existing, _setup_cpp_function_signatures, try_except, print_line,
    set_cpp_library, set_this, get_this, raise, mbind, mret, Init_bind, Init_ret,
    with_library_loaded, with_logger, __init__, found_library;
  cbn -[pretty String.append library_paths].

Ltac each_path :=
  repeat match goal with
         | |- context [match ?x with _ => _ end] =>
             lazymatch x with
             | context [match _ with _ => _ end] => fail
             | _ => destruct x eqn:?
             end; cbn -[pretty String.append library_paths] in *
         end.

Lemma construct_this (application_name process_name : string) (env : LoadEnv)
    (out : Console) (faults : list (option PyExc)) :
  let c := fst (construct application_name process_name env out faults) in
  this c =
    __init__ application_name process_name
      (mk_init_env (getpid env) (_library_loaded (this c)) (_logger (this c))) /\
  (_library_loaded (this c) = false -> _logger (this c) = None) /\
  out `prefix_of` stdout c /\
  _cpp_library c = found_library env /\
  _library_loaded (this c) = bool_decide (is_Some (found_library env)).
Proof.
  open_construct. each_path.
  all: split; [reflexivity|split; [intros; congruence|]].
  all: split; [|split; reflexivity].
  all: rewrite <- ?(assoc_L (++)); try apply prefix_app_r; reflexivity.
Qed.

(** X26.  Whatever the constructor meets outside, and whether it returns
    or raises, the instance it has built by then has the two names of the
    call (the process name replaced by [Python_<pid>] when empty), an
    empty queue, and no handle unless the library was loaded: it is the
    instance of [__init__] for what was found.  The lines already on the
    console are kept. *)
Theorem constructor_builds_the_instance (application_name process_name : string)
    (env : LoadEnv) (out : Console) (faults : list (option PyExc)) :
  let c := fst (construct application_name process_name env out faults) in
  this c =
    __init__ application_name process_name
      (mk_init_env (getpid env) (_library_loaded (this c)) (_logger (this c))) /\
  _local_queue (this c) = [] /\
  (_library_loaded (this c) = false -> local_only (this c)) /\
  out `prefix_of` stdout c.
Proof.
  intros c.
  destruct (construct_this application_name process_name env out faults)
    as (Hthis & Hnone & Hout & _).
  fold c in Hthis, Hnone, Hout.
  split; [exact Hthis|]. split; [rewrite Hthis; reflexivity|].
  split; [|exact Hout].
  intros H. unfold local_only. rewrite H. apply andb_false_r.
Qed.

(** X27.  The library of an instance is the first path of the list that
    exists, if [ctypes.CDLL] loads it: when that one fails to load, the
    paths after it are not tried, and the instance has no library. *)
Theorem library_is_the_first_existing_path (application_name process_name : string)
    (env : LoadEnv) (out : Console) (faults : list (option PyExc)) :
  let c := fst (construct application_name process_name env out faults) in
  _cpp_library c = found_library env /\
  _library_loaded (this c) = bool_decide (is_Some (found_library env)).
Proof.
  intros c.
  exact (proj2 (proj2 (proj2
    (construct_this application_name process_name env out faults)))).
Qed.

(** X28.  When no library is loaded and the console works, the
    constructor returns an instance in local-only mode, and has printed
    one warning when no path exists, and two lines (the first with the
    text of the exception) when the first path that exists failed to
    load. *)
Theorem constructor_without_library (application_name process_name : string)
    (env : LoadEnv) (out : Console) :
  found_library env = None ->
  let c := fst (construct application_name process_name env out []) in
  snd (construct application_name process_name env out []) = Returned tt /\
  this c = __init__ application_name process_name (mk_init_env (getpid env) false None) /\
  local_only (this c) /\
  (List.find (path_exists env) library_paths = None ->
   stdout c =
     (out ++ ["Warning: ASFMLogger C++ library not found. Running in local-only mode."])%list) /\
  (forall path e,
     List.find (path_exists env) library_paths = Some path ->
     cdll_fault env path = Some e ->
     stdout c =
       (out ++ [("Warning: Failed to load C++ library: " ++ exc_str e)%string;
                "Running in local-only mode with limited functionality."])%list).
Proof.
  open_construct.
  destruct (find (path_exists env) library_paths) as [path|] eqn:Hfind.
  - destruct (cdll_fault env path) as [e|] eqn:Hload; [|discriminate].
    intros _. cbn -[pretty String.append library_paths].
    repeat split; [discriminate|].
    intros path' e' Hp He. injection Hp as <-. rewrite Hload in He. injection He as <-.
    rewrite <- (assoc_L (++)). reflexivity.
  - intros _. cbn -[pretty String.append library_paths].
    repeat split. intros path e Hp. discriminate.
Qed.

Lemma constructor_without_library_witness :
  found_library broken_library = None /\
  stdout (fst (construct "Billing" "" broken_library [] [])) =
    ["Warning: Failed to load C++ library: invalid ELF header";
     "Running in local-only mode with limited functionality."].
Proof.
  split; [reflexivity|].
  exact (proj2 (proj2 (proj2 (proj2
           (constructor_without_library "Billing" "" broken_library [] eq_refl))))
           "lib/libASFMLogger.so" (Exc "OSError" "invalid ELF header") eq_refl eq_refl).
Defined.

Lemma configure_enhanced_effect (env : ConfigEnv) (config : EnhancedConfig) (w : World) :
  let w' := fst (configure_enhanced env config w) in
  console w `prefix_of` console w' /\
  (native_calls w' = native_calls w \/
   native_calls w' =
     (native_calls w ++
        [mk_native_configure (application_name (self w)) config
           (level_value (min_log_level config))])%list).
Proof.
  unfold configure_enhanced, print.
  destruct (truthy_handle _ && _), (configure_fault env), (configure_print_fault env),
    (configure_handler_print_fault env); cbn;
    (split; [try apply prefix_app_r; reflexivity|auto]).
Qed.

(** X29.  [configure_global_logger] replaces the global instance by a new
    one: when it returns, [get_global_logger] gives the instance it
    returned, which has the name of the call and an empty queue, whatever
    the instance before held; when it raises, the global instance is the
    one before (the constructor raised) or such a new one.  The native
    library gets at most one call, the configuration with the three
    options of the call, the defaults for the others and level 2. *)
Theorem configure_global_logger_replaces (env : GlobalEnv) (application_name : string)
    (enable_database : bool) (database_connection log_file : string) (rt : Runtime) :
  let res :=
    configure_global_logger env application_name enable_database
      database_connection log_file rt in
  let fresh (L : ASFMLoggerPython) :=
    get_global_logger (fst res) = Some L /\
    Logger.application_name L = application_name /\ _local_queue L = [] in
  match snd res with
  | Returned L => fresh L
  | Raised _ =>
      get_global_logger (fst res) = get_global_logger rt \/ exists L, fresh L
  end /\
  rt_console rt `prefix_of` rt_console (fst res) /\
  (rt_native_calls (fst res) = rt_native_calls rt \/
   rt_native_calls (fst res) =
     (rt_native_calls rt ++
        [mk_native_configure application_name
           (global_options enable_database database_connection log_file)
           (LogLevel_value INFO)])%list).
Proof.
  unfold configure_global_logger.
  destruct (construct_this application_name "" (global_load env) (rt_console rt)
              (global_faults env)) as (Hthis & _ & Hout & _).
  destruct (construct application_name "" (global_load env) (rt_console rt)
              (global_faults env)) as [c [u|e]]; cbn [fst snd] in *.
  - pose proof (configure_enhanced_self (global_config env)
                  (global_options enable_database database_connection log_file)
                  (world_of (mk_runtime (Some (this c)) (stdout c) (rt_native_calls rt))
                     (this c))) as Hself.
    destruct (configure_enhanced_effect (global_config env)
                (global_options enable_database database_connection log_file)
                (world_of (mk_runtime (Some (this c)) (stdout c) (rt_native_calls rt))
                   (this c))) as (Hcons & Hnat).
    destruct (configure_enhanced _ _ _) as [w r]; cbn [fst snd] in *.
    assert (Hfresh : Logger.application_name (self w) = application_name /\
                     _local_queue (self w) = []).
    { rewrite Hself. cbn [world_of self]. rewrite Hthis. split; reflexivity. }
    cbn [world_of self console native_calls] in *.
    assert (Hnat' : native_calls w = rt_native_calls rt \/
                    native_calls w =
                      (rt_native_calls rt ++
                         [mk_native_configure application_name
                            (global_options enable_database database_connection log_file)
                            (LogLevel_value INFO)])%list).
    { destruct Hnat as [H|H]; [left; exact H|right].
      rewrite H, Hthis. reflexivity. }
    destruct r as [u'|e]; cbn [fst snd get_global_logger _global_logger rt_console
                                rt_native_calls].
    + split; [split; [reflexivity|exact Hfresh]|].
      split; [etrans; eassumption|exact Hnat'].
    + split; [right; exists (self w); split; [reflexivity|exact Hfresh]|].
      split; [etrans; eassumption|exact Hnat'].
  - cbn [get_global_logger _global_logger rt_console rt_native_calls].
    split; [left; reflexivity|]. split; [exact Hout|left; reflexivity].
Qed.

(** X30.  [quick_log] works on a logger of its own: the global instance
    is never changed, so what [quick_log] records cannot be read back
    through [get_global_logger].  The logger of the call ends with
    exactly one entry when the level, in any case, is one of the six
    names, and with none for any other level, without any exception. *)
Theorem quick_log_uses_its_own_logger (env : QuickEnv) (message level component : string)
    (rt : Runtime) :
  let res := quick_log env message level component rt in
  get_global_logger (fst (fst res)) = get_global_logger rt /\
  match snd (fst res), method_of_level level with
  | Some L, Some m =>
      _local_queue L = [make_entry (quick_record env) (method_name m) message component ""]
  | Some L, None =>
      _local_queue L = [] /\ snd res = Returned tt /\
      rt_native_calls (fst (fst res)) = rt_native_calls rt
  | None, _ => exists e, snd res = Raised e
  end.
Proof.
  unfold quick_log, get_logger.
  destruct (construct_this DEFAULT_APPLICATION DEFAULT_PROCESS (quick_load env)
              (rt_console rt) (quick_faults env)) as (Hthis & _).
  destruct (construct DEFAULT_APPLICATION DEFAULT_PROCESS (quick_load env)
              (rt_console rt) (quick_faults env)) as [c [u|e]]; cbn [fst snd] in *.
  - destruct (method_of_level level) as [m|].
    + pose proof (ingest_queue m (quick_record env) message component ""
                    (world_of (mk_runtime (_global_logger rt) (stdout c) (rt_native_calls rt))
                       (this c))) as Hq.
      destruct (ingest m _ _ _ _ _) as [w r]; cbn [fst snd] in *.
      split; [reflexivity|].
      rewrite Hq. cbn [world_of self]. rewrite Hthis. reflexivity.
    + cbn [fst snd]. split; [reflexivity|].
      split; [rewrite Hthis; reflexivity|split; reflexivity].
  - split; [reflexivity|]. destruct (method_of_level level); exists e; reflexivity.
Qed.

End StartupMore.
